(** * xdrlib3: the XDR codec (RFC 1014), embedded from [xdrlib3/__init__.py]

    The Python module has two classes.  [Packer] owns a [BytesIO] that is only
    ever written at its end; [Unpacker] owns a byte string and a cursor.  Every
    method is embedded as a computation in a state-and-exception monad whose
    state survives a raised exception, as the attributes of a Python object do.

    Python integers are [Z]; [bytes] are [list byte]; a Python [float] is an
    IEEE-754 binary64 number, here a [spec_float] that is valid for precision
    53.  The functions of the [struct] module that the code calls
    ([struct.pack] and [struct.unpack] with the formats [">L"], [">l"], [">f"]
    and [">d"]) are part of the Python runtime; they are modelled in the
    section [Struct] below.

    The item packer or unpacker handed to the array and list methods is a
    callable; as in its use with a bound method of the same object, it is a
    computation over the same Packer or Unpacker. *)

From Stdlib Require Import ZArith List Lia Bool String Strings.Byte SpecFloat DecimalString.
Import ListNotations.
Local Open Scope Z_scope.

Set Implicit Arguments.

(** ** Bytes and Python slices *)

Definition Z_of_byte (b : byte) : Z := Z.of_N (Byte.to_N b).

Definition byte_of_Z (z : Z) : byte :=
  match Byte.of_N (Z.to_N (z mod 256)) with
  | Some b => b
  | None => x00
  end.

Definition len {A} (l : list A) : Z := Z.of_nat (List.length l).

(** [PySlice_AdjustIndices]: a negative bound counts from the end, and both
    bounds are clamped to [0 .. len]. *)
Definition slice_index (n i : Z) : Z :=
  if i <? 0 then Z.max (i + n) 0 else Z.min i n.

(** [l[i:j]] *)
Definition py_slice {A} (l : list A) (i j : Z) : list A :=
  let lo := slice_index (len l) i in
  let hi := slice_index (len l) j in
  firstn (Z.to_nat (hi - lo)) (skipn (Z.to_nat lo) l).

(** [k * b"\0"]: a non-positive count gives the empty string. *)
Definition zeros (k : Z) : list byte := repeat x00 (Z.to_nat k).

(** ** Exceptions *)

Inductive exn : Type :=
| Error (msg : string)            (* class Error(Exception) *)
| ConversionError (msg : string)  (* class ConversionError(Error) *)
| EOFError
| ValueError (msg : string)
| TypeError (msg : string)
| OverflowError (msg : string)
| struct_error (msg : string).    (* struct.error *)

(** [isinstance(e, Error)]: [ConversionError] is a subclass of [Error]. *)
Definition isinstance_Error (e : exn) : bool :=
  match e with
  | Error _ | ConversionError _ => true
  | _ => false
  end.

(** [type(e) is ConversionError] *)
Definition is_ConversionError (e : exn) : bool :=
  match e with
  | ConversionError _ => true
  | _ => false
  end.

Definition is_EOFError (e : exn) : bool :=
  match e with
  | EOFError => true
  | _ => false
  end.

(** ** The monad: state that survives exceptions *)

Inductive outcome (A : Type) : Type :=
| Return (a : A)
| Raise (e : exn).
Arguments Raise {A} e.

Definition M (S A : Type) : Type := S -> outcome A * S.

Definition ret {S A} (a : A) : M S A := fun s => (Return a, s).

Definition raise {S A} (e : exn) : M S A := fun s => (Raise e, s).

Definition bind {S A B} (c : M S A) (k : A -> M S B) : M S B :=
  fun s =>
    match c s with
    | (Return a, s') => k a s'
    | (Raise e, s') => (Raise e, s')
    end.

(** [try: c  except ... as e: h e] *)
Definition try_except {S A} (c : M S A) (h : exn -> M S A) : M S A :=
  fun s =>
    match c s with
    | (Return a, s') => (Return a, s')
    | (Raise e, s') => h e s'
    end.

Definition get {S} : M S S := fun s => (Return s, s).
Definition put {S} (s : S) : M S unit := fun _ => (Return tt, s).

Declare Scope xdr_scope.
Delimit Scope xdr_scope with xdr.
Notation "x <- c ;; k" := (bind c (fun x => k))
  (at level 61, c at next level, right associativity) : xdr_scope.
Notation "c ;; k" := (bind c (fun _ => k))
  (at level 61, right associativity) : xdr_scope.
Local Open Scope xdr_scope.

(** [for item in l: f item] *)
Fixpoint for_each {S T} (l : list T) (f : T -> M S unit) : M S unit :=
  match l with
  | [] => ret tt
  | item :: rest => f item ;; for_each rest f
  end.

(** ** The [struct] module, for the four formats the code uses *)

Section Struct.

(** Big-endian bytes of the [n] low-order bytes of [v]. *)
Fixpoint be_encode (n : nat) (v : Z) : list byte :=
  match n with
  | O => []
  | S k => byte_of_Z (Z.shiftr v (8 * Z.of_nat k)) :: be_encode k v
  end.

(** The unsigned integer whose big-endian bytes are [data]. *)
Definition be_decode (data : list byte) : Z :=
  fold_left (fun acc b => acc * 256 + Z_of_byte b) data 0.

(** [struct.pack(">L", x)] *)
Definition struct_pack_L (x : Z) : exn + list byte :=
  if (0 <=? x) && (x <=? 4294967295) then inr (be_encode 4 x)
  else inl (struct_error "'L' format requires 0 <= number <= 4294967295").

(** [struct.pack(">l", x)]: two's complement. *)
Definition struct_pack_l (x : Z) : exn + list byte :=
  if (-2147483648 <=? x) && (x <=? 2147483647) then inr (be_encode 4 x)
  else inl (struct_error "'l' format requires -2147483648 <= number <= 2147483647").

(** [struct.unpack(">L", data)[0]], for [data] of four bytes. *)
Definition struct_unpack_L (data : list byte) : Z := be_decode data.

(** [struct.unpack(">l", data)[0]], for [data] of four bytes. *)
Definition struct_unpack_l (data : list byte) : Z :=
  let v := be_decode data in
  if v <? 2147483648 then v else v - 4294967296.

(** *** IEEE-754 interchange formats

    A format has a trailing-significand field of [mw] bits and a biased
    exponent field of [ew] bits: binary32 is [mw = 23], [ew = 8] and
    binary64 is [mw = 52], [ew = 11]. *)

Section Interchange.
Variables mw ew : Z.

Let prec := mw + 1.
Let emax := 2 ^ (ew - 1).

Definition join_bits (s : bool) (e m : Z) : Z :=
  ((if s then 2 ^ ew else 0) + e) * 2 ^ mw + m.

Definition bits_of_float (f : spec_float) : Z :=
  match f with
  | S754_zero s => join_bits s 0 0
  | S754_infinity s => join_bits s (2 ^ ew - 1) 0
  | S754_nan => join_bits false (2 ^ ew - 1) (2 ^ (mw - 1))
  | S754_finite s m e =>
      if 2 ^ mw <=? Zpos m
      then join_bits s (e - emin prec emax + 1) (Zpos m - 2 ^ mw)
      else join_bits s 0 (Zpos m)
  end.

Definition float_of_bits (x : Z) : spec_float :=
  let m := x mod 2 ^ mw in
  let e := (x / 2 ^ mw) mod 2 ^ ew in
  let s := 2 ^ ew <=? x / 2 ^ mw in
  if e =? 0 then
    match m with
    | Zpos p => S754_finite s p (emin prec emax)
    | _ => S754_zero s
    end
  else if e =? 2 ^ ew - 1 then
    if m =? 0 then S754_infinity s else S754_nan
  else
    match m + 2 ^ mw with
    | Zpos p => S754_finite s p (e - 1 + emin prec emax)
    | _ => S754_nan
    end.
End Interchange.

(** A C [double] cast to [float] and back: round to nearest, ties to even. *)
Definition double_to_single (f : spec_float) : spec_float :=
  match f with
  | S754_finite s m e => binary_round 24 128 s m e
  | _ => f
  end.

Definition single_to_double (f : spec_float) : spec_float :=
  match f with
  | S754_finite s m e => binary_round 53 1024 s m e
  | _ => f
  end.

Definition is_infinity (f : spec_float) : bool :=
  match f with
  | S754_infinity _ => true
  | _ => false
  end.

(** [struct.pack(">d", x)] *)
Definition struct_pack_d (x : spec_float) : exn + list byte :=
  inr (be_encode 8 (bits_of_float 52 11 x)).

(** [struct.pack(">f", x)]: [PyFloat_Pack4] casts to [float] and raises
    [OverflowError] when a finite [x] became infinite. *)
Definition struct_pack_f (x : spec_float) : exn + list byte :=
  let y := double_to_single x in
  if is_infinity y && negb (is_infinity x)
  then inl (OverflowError "float too large to pack with f format")
  else inr (be_encode 4 (bits_of_float 23 8 y)).

(** [struct.unpack(">d", data)[0]], for [data] of eight bytes. *)
Definition struct_unpack_d (data : list byte) : spec_float :=
  float_of_bits 52 11 (be_decode data).

(** [struct.unpack(">f", data)[0]], for [data] of four bytes. *)
Definition struct_unpack_f (data : list byte) : spec_float :=
  single_to_double (float_of_bits 23 8 (be_decode data)).

End Struct.

(** [struct.pack] either returns the bytes or raises. *)
Definition lift {S A} (r : exn + A) : M S A :=
  match r with
  | inl e => raise e
  | inr a => ret a
  end.

(** The decorator [raise_conversion_error]: a [struct.error] raised by the
    wrapped method is replaced by a [ConversionError] with the same message. *)
Definition raise_conversion_error {S V A} (function : V -> M S A) : V -> M S A :=
  fun value =>
    try_except (function value)
      (fun e =>
         match e with
         | struct_error msg => raise (ConversionError msg)
         | _ => raise e
         end).

(** ** class Packer *)

Module Packer.

(** [self.__buf], a [BytesIO] that is only appended to. *)
Record t : Type := mk { buf : list byte }.

Definition reset : M t unit := put (mk []).

(** [Packer()] *)
Definition init : t := mk [].

Definition get_buffer : M t (list byte) := s <- get ;; ret (buf s).

(** [self.__buf.write(data)] *)
Definition write (data : list byte) : M t unit :=
  s <- get ;; put (mk (buf s ++ data)).

Definition pack_uint : Z -> M t unit :=
  raise_conversion_error (fun x => data <- lift (struct_pack_L x) ;; write data).

Definition pack_int : Z -> M t unit :=
  raise_conversion_error (fun x => data <- lift (struct_pack_l x) ;; write data).

Definition pack_enum := pack_int.

Definition pack_bool (x : bool) : M t unit :=
  if x then write [x00; x00; x00; x01] else write [x00; x00; x00; x00].

Definition pack_uhyper (x : Z) : M t unit :=
  try_except (pack_uint (Z.land (Z.shiftr x 32) 4294967295))
    (fun e =>
       match e with
       | TypeError msg | struct_error msg => raise (ConversionError msg)
       | _ => raise e
       end) ;;
  try_except (pack_uint (Z.land x 4294967295))
    (fun e =>
       match e with
       | TypeError msg | struct_error msg => raise (ConversionError msg)
       | _ => raise e
       end).

Definition pack_hyper := pack_uhyper.

Definition pack_float : spec_float -> M t unit :=
  raise_conversion_error (fun x => data <- lift (struct_pack_f x) ;; write data).

Definition pack_double : spec_float -> M t unit :=
  raise_conversion_error (fun x => data <- lift (struct_pack_d x) ;; write data).

Definition pack_fstring (n : Z) (s : list byte) : M t unit :=
  if n <? 0 then raise (ValueError "fstring size must be nonnegative")
  else
    let data := py_slice s 0 n in
    let n := ((n + 3) / 4) * 4 in
    let data := data ++ zeros (n - len data) in
    write data.

Definition pack_fopaque := pack_fstring.

Definition pack_string (s : list byte) : M t unit :=
  let n := len s in
  pack_uint n ;;
  pack_fstring n s.

Definition pack_opaque := pack_string.
Definition pack_bytes := pack_string.

Definition pack_list {T} (list : list T) (pack_item : T -> M t unit) : M t unit :=
  for_each list (fun item => pack_uint 1 ;; pack_item item) ;;
  pack_uint 0.

Definition pack_farray {T} (n : Z) (list : list T) (pack_item : T -> M t unit)
  : M t unit :=
  if negb (len list =? n) then raise (ValueError "wrong array size")
  else for_each list pack_item.

Definition pack_array {T} (list : list T) (pack_item : T -> M t unit) : M t unit :=
  let n := len list in
  pack_uint n ;;
  pack_farray n list pack_item.

End Packer.

(** ** class Unpacker *)

Module Unpacker.

(** [self.__buf] and [self.__pos] *)
Record t : Type := mk { buf : list byte; pos : Z }.

Definition reset (data : list byte) : M t unit := put (mk data 0).

(** [Unpacker(data)] *)
Definition init (data : list byte) : t := mk data 0.

Definition get_position : M t Z := s <- get ;; ret (pos s).

Definition set_position (position : Z) : M t unit :=
  s <- get ;; put (mk (buf s) position).

Definition get_buffer : M t (list byte) := s <- get ;; ret (buf s).

Definition done : M t unit :=
  s <- get ;;
  if pos s <? len (buf s) then raise (Error "unextracted data remains")
  else ret tt.

Definition unpack_uint : M t Z :=
  i <- get_position ;;
  let j := i + 4 in
  set_position j ;;
  b <- get_buffer ;;
  let data := py_slice b i j in
  if len data <? 4 then raise EOFError
  else ret (struct_unpack_L data).

Definition unpack_int : M t Z :=
  i <- get_position ;;
  let j := i + 4 in
  set_position j ;;
  b <- get_buffer ;;
  let data := py_slice b i j in
  if len data <? 4 then raise EOFError
  else ret (struct_unpack_l data).

Definition unpack_enum := unpack_int.

Definition unpack_bool : M t bool :=
  x <- unpack_int ;; ret (negb (x =? 0)).

Definition unpack_uhyper : M t Z :=
  hi <- unpack_uint ;;
  lo <- unpack_uint ;;
  ret (Z.lor (Z.shiftl hi 32) lo).

Definition unpack_hyper : M t Z :=
  x <- unpack_uhyper ;;
  if 9223372036854775808 <=? x then ret (x - 18446744073709551616)
  else ret x.

Definition unpack_float : M t spec_float :=
  i <- get_position ;;
  let j := i + 4 in
  set_position j ;;
  b <- get_buffer ;;
  let data := py_slice b i j in
  if len data <? 4 then raise EOFError
  else ret (struct_unpack_f data).

Definition unpack_double : M t spec_float :=
  i <- get_position ;;
  let j := i + 8 in
  set_position j ;;
  b <- get_buffer ;;
  let data := py_slice b i j in
  if len data <? 8 then raise EOFError
  else ret (struct_unpack_d data).

Definition unpack_fstring (n : Z) : M t (list byte) :=
  if n <? 0 then raise (ValueError "fstring size must be nonnegative")
  else
    i <- get_position ;;
    let j := i + (n + 3) / 4 * 4 in
    b <- get_buffer ;;
    if len b <? j then raise EOFError
    else
      set_position j ;;
      b <- get_buffer ;;
      ret (py_slice b i (i + n)).

Definition unpack_fopaque := unpack_fstring.

Definition unpack_string : M t (list byte) :=
  n <- unpack_uint ;;
  unpack_fstring n.

Definition unpack_opaque := unpack_string.
Definition unpack_bytes := unpack_string.

(** ["0 or 1 expected, got %r" % (x,)] *)
Definition tag_message (x : Z) : string :=
  ("0 or 1 expected, got " ++ NilZero.string_of_int (Z.to_int x))%string.

(** The [while 1] loop of [unpack_list].  An item unpacker is any callable
    and may move the cursor backwards, so the loop has no bound of its own:
    [fuel] bounds the number of iterations and [None] means it ran out. *)
Fixpoint unpack_list_loop {T} (fuel : nat) (unpack_item : M t T) (list : list T)
  (s : t) : option (outcome (Datatypes.list T) * t) :=
  match fuel with
  | O => None
  | S fuel' =>
      match unpack_uint s with
      | (Raise e, s1) => Some (Raise e, s1)
      | (Return x, s1) =>
          if x =? 0 then Some (Return list, s1)
          else if negb (x =? 1)
               then Some (Raise (ConversionError (tag_message x)), s1)
               else
                 match unpack_item s1 with
                 | (Raise e, s2) => Some (Raise e, s2)
                 | (Return item, s2) =>
                     unpack_list_loop fuel' unpack_item (list ++ [item]) s2
                 end
      end
  end.

Definition unpack_list {T} (fuel : nat) (unpack_item : M t T) (s : t)
  : option (outcome (list T) * t) :=
  unpack_list_loop fuel unpack_item [] s.

(** [for i in range(n): list.append(unpack_item())] *)
Fixpoint unpack_farray_loop {T} (n : nat) (unpack_item : M t T) (list : list T)
  : M t (Datatypes.list T) :=
  match n with
  | O => ret list
  | S n' =>
      item <- unpack_item ;;
      unpack_farray_loop n' unpack_item (list ++ [item])
  end.

Definition unpack_farray {T} (n : Z) (unpack_item : M t T) : M t (list T) :=
  unpack_farray_loop (Z.to_nat n) unpack_item [].

Definition unpack_array {T} (unpack_item : M t T) : M t (list T) :=
  n <- unpack_uint ;;
  unpack_farray n unpack_item.

End Unpacker.

(** ** The vocabulary of the properties *)

(** The spec's words for the bytes of a fixed-length opaque: the first [n]
    bytes of [s], right-padded with zero bytes to length [n], then zero bytes
    up to the next multiple of four. *)
Definition fstring_wire (n : Z) (s : list byte) : list byte :=
  let body := firstn (Z.to_nat n) s ++ zeros (n - len s) in
  body ++ zeros ((n + 3) / 4 * 4 - n).

(** The items that the loop of [unpack_list] has read when it comes to look
    at its next tag: each was announced by a tag 1 and returned by the item
    reader.  [list_items unpack_item u items u'] leads from the Unpacker [u]
    through the pairs of [items] to the Unpacker [u']. *)
Inductive list_items {T} (unpack_item : M Unpacker.t T)
  : Unpacker.t -> list T -> Unpacker.t -> Prop :=
| list_items_nil (u : Unpacker.t) : list_items unpack_item u [] u
| list_items_cons (u u1 u2 u' : Unpacker.t) (item : T) (items : list T) :
    Unpacker.unpack_uint u = (Return 1, u1) ->
    unpack_item u1 = (Return item, u2) ->
    list_items unpack_item u2 items u' ->
    list_items unpack_item u (item :: items) u'.

(** The cursor invariant of the data model. *)
Definition cursor_in_bounds (u : Unpacker.t) : Prop :=
  0 <= Unpacker.pos u <= len (Unpacker.buf u).

(** The spec's words for the bytes of a list of 32-bit signed values: for each
    element the uint encoding of the tag 1 and the element's encoding, then the
    uint encoding of the tag 0; no count. *)
Definition list_wire (vs : list Z) : list byte :=
  flat_map (fun v => be_encode 4 1 ++ be_encode 4 v) vs ++ be_encode 4 0.

Definition int32 (v : Z) : Prop := - 2 ^ 31 <= v < 2 ^ 31.

(** [unpack_X(Packer().pack_X(v).get_buffer()) == v] *)
Definition roundtrip {A} (pack : A -> M Packer.t unit) (unpack : M Unpacker.t A)
  (v : A) : Prop :=
  exists p data u,
    pack v Packer.init = (Return tt, p)
    /\ Packer.get_buffer p = (Return data, p)
    /\ unpack (Unpacker.init data) = (Return v, u).

(** A Python float: a binary64 number.  NaN is left out of the values whose
    round trip is stated, since [spec_float] does not carry its payload. *)
Definition is_double (v : spec_float) : Prop :=
  valid_binary 53 1024 v = true /\ v <> S754_nan.

Definition is_single (y : spec_float) : Prop :=
  valid_binary 24 128 y = true /\ y <> S754_nan.

(** The binary64 numbers that are binary32 numbers: the significand has no
    bit below the binary32 unit in the last place, and the exponent fits. *)
Definition single_exact (v : spec_float) : bool :=
  match v with
  | S754_finite _ m e =>
      let e32 := Z.max (e + 29) (-149) in
      (Zpos m mod 2 ^ (e32 - e) =? 0) && (e32 <=? 104)
  | _ => true
  end.

(** ** The vocabulary of the further properties *)

(** A packing step that only ever appends whole 4-byte words: whatever the
    outcome, the bytes already written are kept and a multiple of four bytes
    follows them. *)
Definition appends_words (c : M Packer.t unit) : Prop :=
  forall p r p',
    c p = (r, p') ->
    exists suffix, Packer.buf p' = Packer.buf p ++ suffix /\ len suffix mod 4 = 0.

(** The bytes of a variable-length opaque: the length as a uint, the bytes,
    and zero bytes up to the next multiple of four. *)
Definition string_wire (s : list byte) : list byte :=
  be_encode 4 (len s) ++ s ++ zeros ((len s + 3) / 4 * 4 - len s).

(** The bytes of a fixed-size array of 32-bit words: the element encodings,
    in order. *)
Definition farray_wire (vs : list Z) : list byte := flat_map (be_encode 4) vs.

(** The bytes of a variable-size array of 32-bit words: the count as a uint,
    then the elements. *)
Definition array_wire (vs : list Z) : list byte :=
  be_encode 4 (len vs) ++ farray_wire vs.

(** A 64-bit pattern read as a two's-complement number. *)
Definition signed64 (x : Z) : Z := (x + 2 ^ 63) mod 2 ^ 64 - 2 ^ 63.

(** The [k] bytes at the cursor. *)
Definition bytes_at (u : Unpacker.t) (k : nat) : list byte :=
  firstn k (skipn (Z.to_nat (Unpacker.pos u)) (Unpacker.buf u)).

(** The Unpacker after [k] more bytes were consumed. *)
Definition advance (u : Unpacker.t) (k : Z) : Unpacker.t :=
  Unpacker.mk (Unpacker.buf u) (Unpacker.pos u + k).

(** The bytes left past the cursor. *)
Definition remaining (u : Unpacker.t) : Z := len (Unpacker.buf u) - Unpacker.pos u.

(** A reader that leaves the buffer alone and never moves the cursor back. *)
Definition reads_forward {A} (c : M Unpacker.t A) : Prop :=
  forall u r u',
    0 <= Unpacker.pos u -> c u = (r, u') ->
    Unpacker.buf u' = Unpacker.buf u /\ Unpacker.pos u <= Unpacker.pos u'.

(** * Properties *)

(** ** Bytes *)

Lemma Z_of_byte_range (b : byte) : 0 <= Z_of_byte b < 256.
Proof.
  unfold Z_of_byte. pose proof (Byte.to_N_bounded b). lia.
Qed.

Lemma Z_of_byte_of_Z (z : Z) : Z_of_byte (byte_of_Z z) = z mod 256.
Proof.
  unfold Z_of_byte, byte_of_Z.
  pose proof (Z.mod_pos_bound z 256 ltac:(lia)) as Hr.
  destruct (Byte.of_N (Z.to_N (z mod 256))) as [b|] eqn:E.
  - apply Byte.to_of_N in E. rewrite E. lia.
  - apply Byte.of_N_None_iff in E. lia.
Qed.

Lemma byte_of_Z_of_byte (b : byte) : byte_of_Z (Z_of_byte b) = b.
Proof.
  unfold byte_of_Z.
  rewrite Z.mod_small by apply Z_of_byte_range.
  unfold Z_of_byte. rewrite N2Z.id, Byte.of_to_N. reflexivity.
Qed.

Lemma byte_of_Z_eqm (a b : Z) : a mod 256 = b mod 256 -> byte_of_Z a = byte_of_Z b.
Proof.
  unfold byte_of_Z. intros ->. reflexivity.
Qed.

(** ** Big-endian encoding *)

Lemma length_be_encode (n : nat) (v : Z) : List.length (be_encode n v) = n.
Proof.
  induction n as [|k IH]; simpl; [reflexivity | now rewrite IH].
Qed.

Lemma len_be_encode (n : nat) (v : Z) : len (be_encode n v) = Z.of_nat n.
Proof.
  unfold len. now rewrite length_be_encode.
Qed.

Lemma pow256_pos (k : nat) : 0 < 256 ^ Z.of_nat k.
Proof. apply Z.pow_pos_nonneg; lia. Qed.

Lemma shiftr_bytes (v : Z) (k : nat) : Z.shiftr v (8 * Z.of_nat k) = v / 256 ^ Z.of_nat k.
Proof.
  rewrite Z.shiftr_div_pow2 by lia.
  rewrite Z.pow_mul_r by lia. reflexivity.
Qed.

Lemma mod_pow256_succ (v : Z) (k : nat) :
  v mod 256 ^ Z.of_nat (S k)
  = (v / 256 ^ Z.of_nat k) mod 256 * 256 ^ Z.of_nat k + v mod 256 ^ Z.of_nat k.
Proof.
  pose proof (pow256_pos k).
  rewrite Nat2Z.inj_succ, Z.pow_succ_r by lia.
  rewrite (Z.mul_comm 256), Z.rem_mul_r by lia. lia.
Qed.

Lemma fold_be_encode (n : nat) (v acc : Z) :
  fold_left (fun a b => a * 256 + Z_of_byte b) (be_encode n v) acc
  = acc * 256 ^ Z.of_nat n + v mod 256 ^ Z.of_nat n.
Proof.
  revert acc. induction n as [|k IH]; intros acc.
  - simpl. rewrite Z.mod_1_r. lia.
  - cbn [be_encode fold_left]. rewrite IH, Z_of_byte_of_Z, shiftr_bytes.
    rewrite mod_pow256_succ, Nat2Z.inj_succ, Z.pow_succ_r by lia. ring.
Qed.

Lemma be_decode_encode (n : nat) (v : Z) :
  be_decode (be_encode n v) = v mod 256 ^ Z.of_nat n.
Proof.
  unfold be_decode. rewrite fold_be_encode. lia.
Qed.

Lemma be_encode_eqm (n : nat) (v w : Z) :
  v mod 256 ^ Z.of_nat n = w mod 256 ^ Z.of_nat n -> be_encode n v = be_encode n w.
Proof.
  induction n as [|k IH]; intros H; [reflexivity|].
  cbn [be_encode].
  pose proof (pow256_pos k) as Hk.
  rewrite !mod_pow256_succ in H.
  destruct (Z.div_mod_unique (256 ^ Z.of_nat k)
              ((v / 256 ^ Z.of_nat k) mod 256) ((w / 256 ^ Z.of_nat k) mod 256)
              (v mod 256 ^ Z.of_nat k) (w mod 256 ^ Z.of_nat k)) as [Hq Hr].
  - left. apply Z.mod_pos_bound. lia.
  - left. apply Z.mod_pos_bound. lia.
  - lia.
  - f_equal; [|now apply IH].
    apply byte_of_Z_eqm. now rewrite !shiftr_bytes.
Qed.

Lemma be_encode_mod (n : nat) (v : Z) :
  be_encode n (v mod 256 ^ Z.of_nat n) = be_encode n v.
Proof.
  pose proof (pow256_pos n). apply be_encode_eqm, Z.mod_mod. lia.
Qed.

Lemma be_encode_app (n m : nat) (v : Z) :
  be_encode (n + m) v = be_encode n (Z.shiftr v (8 * Z.of_nat m)) ++ be_encode m v.
Proof.
  induction n as [|k IH]; [reflexivity|].
  cbn [Nat.add be_encode app]. rewrite IH. f_equal. f_equal.
  rewrite Z.shiftr_shiftr by lia. f_equal. lia.
Qed.

Lemma fold_be_acc (l : list byte) (acc : Z) :
  fold_left (fun a b => a * 256 + Z_of_byte b) l acc
  = acc * 256 ^ len l + be_decode l.
Proof.
  unfold be_decode, len. revert acc.
  induction l as [|b t IH]; intros acc.
  - simpl. lia.
  - cbn [fold_left List.length]. rewrite IH, (IH (0 * 256 + Z_of_byte b)).
    rewrite Nat2Z.inj_succ, Z.pow_succ_r by lia. ring.
Qed.

Lemma be_decode_app (l1 l2 : list byte) :
  be_decode (l1 ++ l2) = be_decode l1 * 256 ^ len l2 + be_decode l2.
Proof.
  unfold be_decode at 1. rewrite fold_left_app. apply fold_be_acc.
Qed.

Lemma be_decode_range (l : list byte) : 0 <= be_decode l < 256 ^ len l.
Proof.
  induction l as [|b t IH] using rev_ind.
  - cbv. split; [discriminate | reflexivity].
  - rewrite be_decode_app. unfold len in *.
    rewrite length_app, Nat2Z.inj_add, Z.pow_add_r by lia.
    cbn [List.length]. change (256 ^ Z.of_nat 1) with 256.
    assert (be_decode [b] = Z_of_byte b) as -> by (unfold be_decode; simpl; lia).
    pose proof (Z_of_byte_range b). nia.
Qed.

(** ** Slices *)

Lemma len_nonneg {A} (l : list A) : 0 <= len l.
Proof. unfold len. lia. Qed.

Lemma len_app {A} (l1 l2 : list A) : len (l1 ++ l2) = len l1 + len l2.
Proof. unfold len. rewrite length_app. lia. Qed.

Lemma len_zeros (k : Z) : len (zeros k) = Z.max 0 k.
Proof. unfold len, zeros. rewrite repeat_length. lia. Qed.

Lemma py_slice_inside {A} (l : list A) (i k : Z) :
  0 <= i -> 0 <= k -> i + k <= len l ->
  py_slice l i (i + k) = firstn (Z.to_nat k) (skipn (Z.to_nat i) l).
Proof.
  intros Hi Hk Hl. unfold py_slice, slice_index.
  destruct (Z.ltb_spec i 0); [lia|].
  destruct (Z.ltb_spec (i + k) 0); [lia|].
  rewrite !Z.min_l by lia. f_equal. lia.
Qed.

Lemma len_py_slice {A} (l : list A) (i k : Z) :
  0 <= i -> 0 <= k ->
  len (py_slice l i (i + k)) = Z.min k (Z.max 0 (len l - i)).
Proof.
  intros Hi Hk. unfold py_slice, slice_index.
  destruct (Z.ltb_spec i 0); [lia|].
  destruct (Z.ltb_spec (i + k) 0); [lia|].
  unfold len. rewrite length_firstn, length_skipn. lia.
Qed.

Lemma py_slice_prefix {A} (l : list A) (n : Z) :
  0 <= n -> py_slice l 0 n = firstn (Z.to_nat n) l.
Proof.
  intros Hn. unfold py_slice, slice_index.
  destruct (Z.ltb_spec n 0); [lia|].
  change (0 <? 0) with false. cbv iota.
  pose proof (len_nonneg l).
  rewrite (Z.min_l 0) by lia. cbn [Z.to_nat skipn].
  rewrite Z.sub_0_r.
  destruct (Z.le_ge_cases n (len l)).
  - now rewrite Z.min_l by lia.
  - rewrite Z.min_r by lia. unfold len in *.
    rewrite Nat2Z.id, !firstn_all2; trivial; lia.
Qed.

Lemma py_slice_whole {A} (l : list A) : py_slice l 0 (len l) = l.
Proof.
  rewrite py_slice_prefix by apply len_nonneg.
  unfold len. rewrite Nat2Z.id. apply firstn_all.
Qed.

(** ** The scalar packers *)

Ltac unfold_monad :=
  unfold raise_conversion_error, try_except, bind, lift, ret, raise, get, put.

Lemma pack_uint_ok (x : Z) (p : Packer.t) :
  0 <= x < 2 ^ 32 ->
  Packer.pack_uint x p = (Return tt, Packer.mk (Packer.buf p ++ be_encode 4 x)).
Proof.
  intros Hx. unfold Packer.pack_uint, struct_pack_L, Packer.write. unfold_monad.
  destruct (Z.leb_spec 0 x); [|lia].
  destruct (Z.leb_spec x 4294967295); [|lia].
  reflexivity.
Qed.

Lemma pack_uint_range_error (x : Z) (p : Packer.t) :
  ~ 0 <= x < 2 ^ 32 ->
  exists msg, Packer.pack_uint x p = (Raise (ConversionError msg), p).
Proof.
  intros Hx. unfold Packer.pack_uint, struct_pack_L, Packer.write. unfold_monad.
  destruct (Z.leb_spec 0 x); destruct (Z.leb_spec x 4294967295);
    try lia; cbn; eauto.
Qed.

Lemma pack_int_ok (x : Z) (p : Packer.t) :
  - 2 ^ 31 <= x < 2 ^ 31 ->
  Packer.pack_int x p = (Return tt, Packer.mk (Packer.buf p ++ be_encode 4 x)).
Proof.
  intros Hx. unfold Packer.pack_int, struct_pack_l, Packer.write. unfold_monad.
  destruct (Z.leb_spec (-2147483648) x); [|lia].
  destruct (Z.leb_spec x 2147483647); [|lia].
  reflexivity.
Qed.

Lemma land_low32 (x : Z) : Z.land x 4294967295 = x mod 2 ^ 32.
Proof. change 4294967295 with (Z.ones 32). apply Z.land_ones. lia. Qed.

Lemma pack_uhyper_halves (x : Z) (p : Packer.t) :
  Packer.pack_uhyper x p
  = (Return tt,
     Packer.mk (Packer.buf p
                  ++ be_encode 4 (Z.land (Z.shiftr x 32) 4294967295)
                  ++ be_encode 4 (Z.land x 4294967295))).
Proof.
  unfold Packer.pack_uhyper, try_except, bind.
  rewrite pack_uint_ok
    by (rewrite land_low32; apply Z.mod_pos_bound; lia).
  rewrite pack_uint_ok
    by (rewrite land_low32; apply Z.mod_pos_bound; lia).
  cbn [Packer.buf]. now rewrite <- app_assoc.
Qed.

Lemma be_encode_halves (x : Z) :
  be_encode 4 (Z.land (Z.shiftr x 32) 4294967295) ++ be_encode 4 (Z.land x 4294967295)
  = be_encode 8 (x mod 2 ^ 64).
Proof.
  rewrite !land_low32.
  change (2 ^ 32) with (256 ^ Z.of_nat 4).
  change (2 ^ 64) with (256 ^ Z.of_nat 8).
  rewrite !be_encode_mod.
  change 8%nat with (4 + 4)%nat. rewrite be_encode_app. reflexivity.
Qed.

(** ** pack_uhyper *)

(** C10: for every integer [x], of any sign or magnitude, [pack_uhyper x] and
    its alias [pack_hyper x] return without raising and append exactly the
    eight big-endian bytes of [x mod 2^64]: eight bytes whose big-endian value
    is [x mod 2^64]. *)
Theorem pack_uhyper_wraps (x : Z) (p : Packer.t) :
  let bytes := be_encode 8 (x mod 2 ^ 64) in
  Packer.pack_uhyper x p = (Return tt, Packer.mk (Packer.buf p ++ bytes))
  /\ Packer.pack_hyper x p = (Return tt, Packer.mk (Packer.buf p ++ bytes))
  /\ len bytes = 8
  /\ be_decode bytes = x mod 2 ^ 64.
Proof.
  intros bytes. unfold Packer.pack_hyper.
  rewrite pack_uhyper_halves, be_encode_halves. fold bytes.
  split; [reflexivity | split; [reflexivity | split]].
  - apply len_be_encode.
  - unfold bytes. rewrite be_decode_encode.
    change (256 ^ Z.of_nat 8) with (2 ^ 64). apply Z.mod_mod. lia.
Qed.

(** C4, as amended: [pack_uhyper x] (and its alias [pack_hyper]) writes eight
    bytes by delegating to [pack_uint] on the masked high half
    [(x >> 32) & 0xFFFFFFFF] and then on the low half [x & 0xFFFFFFFF]; both
    halves lie in [0, 2^32), so neither delegated range check can fail and the
    call returns for every integer [x]. *)
Theorem pack_uhyper_delegates (x : Z) (p : Packer.t) :
  let hi := Z.land (Z.shiftr x 32) 4294967295 in
  let lo := Z.land x 4294967295 in
  Packer.pack_uhyper x p = bind (Packer.pack_uint hi) (fun _ => Packer.pack_uint lo) p
  /\ Packer.pack_hyper x p = Packer.pack_uhyper x p
  /\ 0 <= hi < 2 ^ 32 /\ 0 <= lo < 2 ^ 32
  /\ Packer.pack_uhyper x p
     = (Return tt, Packer.mk (Packer.buf p ++ be_encode 4 hi ++ be_encode 4 lo))
  /\ len (be_encode 4 hi ++ be_encode 4 lo) = 8.
Proof.
  intros hi lo.
  assert (Hhi : 0 <= hi < 2 ^ 32)
    by (unfold hi; rewrite land_low32; apply Z.mod_pos_bound; lia).
  assert (Hlo : 0 <= lo < 2 ^ 32)
    by (unfold lo; rewrite land_low32; apply Z.mod_pos_bound; lia).
  split; [|split; [reflexivity | split; [exact Hhi | split; [exact Hlo | split]]]].
  - rewrite pack_uhyper_halves. unfold bind.
    rewrite !pack_uint_ok by assumption.
    cbn [Packer.buf]. now rewrite <- app_assoc.
  - apply pack_uhyper_halves.
  - now rewrite len_app, !len_be_encode.
Qed.

(** C4 as stated fails: the high half of [2^64] is [2^32], outside
    [0, 2^32), and the call returns normally, writing eight zero bytes. *)
Lemma pack_uhyper_high_half_masked :
  ~ (0 <= Z.shiftr (2 ^ 64) 32 < 2 ^ 32)
  /\ Packer.pack_uhyper (2 ^ 64) Packer.init
     = (Return tt, Packer.mk [x00; x00; x00; x00; x00; x00; x00; x00]).
Proof.
  split; [vm_compute; intros [_ H]; discriminate H | vm_compute; reflexivity].
Qed.

(** ** pack_fstring *)

Lemma zeros_app (a b : Z) : 0 <= a -> 0 <= b -> zeros (a + b) = zeros a ++ zeros b.
Proof.
  intros Ha Hb. unfold zeros. rewrite Z2Nat.inj_add by lia. apply repeat_app.
Qed.

Lemma zeros_nonpos (k : Z) : k <= 0 -> zeros k = [].
Proof.
  intros Hk. unfold zeros. destruct k; try lia; reflexivity.
Qed.

Lemma aligned_bounds (n : Z) : n <= (n + 3) / 4 * 4 < n + 4 /\ ((n + 3) / 4 * 4) mod 4 = 0.
Proof.
  pose proof (Z.div_mod (n + 3) 4 ltac:(lia)).
  pose proof (Z.mod_pos_bound (n + 3) 4 ltac:(lia)).
  split; [lia | apply Z.mod_mul; lia].
Qed.

Lemma len_firstn {A} (l : list A) (n : Z) :
  0 <= n -> len (firstn (Z.to_nat n) l) = Z.min n (len l).
Proof.
  intros Hn. unfold len. rewrite length_firstn. lia.
Qed.

(** C6: for [n >= 0], [pack_fstring n s] appends exactly [((n+3)//4)*4]
    bytes: the first [n] bytes of [s], zero-padded to length [n], followed by
    zero bytes up to the next multiple of four; for [n < 0] it raises
    [ValueError] and appends nothing. *)
Theorem pack_fstring_wire (n : Z) (s : list byte) (p : Packer.t) :
  (0 <= n ->
   Packer.pack_fstring n s p = (Return tt, Packer.mk (Packer.buf p ++ fstring_wire n s))
   /\ len (fstring_wire n s) = (n + 3) / 4 * 4
   /\ Packer.pack_fopaque n s p = Packer.pack_fstring n s p)
  /\ (n < 0 ->
      Packer.pack_fstring n s p
      = (Raise (ValueError "fstring size must be nonnegative"), p)).
Proof.
  split; intros Hn.
  - pose proof (aligned_bounds n) as [Ha _].
    pose proof (len_nonneg s) as Hs.
    assert (Hwire : py_slice s 0 n ++ zeros ((n + 3) / 4 * 4 - len (py_slice s 0 n))
                    = fstring_wire n s).
    { unfold fstring_wire. rewrite py_slice_prefix, len_firstn by lia.
      rewrite <- app_assoc. f_equal.
      destruct (Z.le_ge_cases n (len s)).
      - rewrite Z.min_l, (zeros_nonpos (k := n - len s)) by lia. reflexivity.
      - rewrite Z.min_r by lia. rewrite <- zeros_app by lia. f_equal. lia. }
    split; [|split; [|reflexivity]].
    + unfold Packer.pack_fstring. destruct (Z.ltb_spec n 0); [lia|].
      unfold Packer.write, bind, get, put. now rewrite Hwire.
    + unfold fstring_wire. rewrite !len_app, len_firstn, !len_zeros by lia. lia.
  - unfold Packer.pack_fstring. destruct (Z.ltb_spec n 0); [|lia]. reflexivity.
Qed.

Lemma pack_fstring_wire_witness :
  Packer.pack_fstring 3 [x61; x62] Packer.init
  = (Return tt, Packer.mk [x61; x62; x00; x00])
  /\ Packer.pack_fstring (-1) [x61; x62] Packer.init
     = (Raise (ValueError "fstring size must be nonnegative"), Packer.init).
Proof.
  split.
  - exact (proj1 (proj1 (pack_fstring_wire 3 [x61; x62] Packer.init) ltac:(lia))).
  - exact (proj2 (pack_fstring_wire (-1) [x61; x62] Packer.init) ltac:(lia)).
Defined.

(** ** unpack_fstring *)

(** C7, as amended: for [n >= 0], [unpack_fstring n] raises [EOFError] and
    leaves the cursor where it was when fewer than [((n+3)//4)*4] bytes remain
    past the cursor; otherwise it advances the cursor by exactly that aligned
    length and returns the slice [buffer[cursor : cursor + n]] taken at the
    prior cursor, which, when that cursor is not negative, is exactly the [n]
    bytes found at the prior cursor, whatever the padding bytes are; for
    [n < 0] it raises [ValueError]. *)
Theorem unpack_fstring_aligned (n : Z) (u : Unpacker.t) :
  let aligned := (n + 3) / 4 * 4 in
  let remaining := len (Unpacker.buf u) - Unpacker.pos u in
  (0 <= n -> remaining < aligned ->
   Unpacker.unpack_fstring n u = (Raise EOFError, u))
  /\ (0 <= n -> aligned <= remaining ->
      Unpacker.unpack_fstring n u
      = (Return (py_slice (Unpacker.buf u) (Unpacker.pos u) (Unpacker.pos u + n)),
         Unpacker.mk (Unpacker.buf u) (Unpacker.pos u + aligned))
      /\ (0 <= Unpacker.pos u ->
          let data :=
            firstn (Z.to_nat n) (skipn (Z.to_nat (Unpacker.pos u)) (Unpacker.buf u)) in
          Unpacker.unpack_fstring n u
          = (Return data, Unpacker.mk (Unpacker.buf u) (Unpacker.pos u + aligned))
          /\ len data = n))
  /\ (n < 0 ->
      Unpacker.unpack_fstring n u
      = (Raise (ValueError "fstring size must be nonnegative"), u))
  /\ Unpacker.unpack_fopaque n u = Unpacker.unpack_fstring n u.
Proof.
  intros aligned remaining. destruct u as [b i]. cbn [Unpacker.pos Unpacker.buf] in *.
  pose proof (aligned_bounds n) as [Ha _]. fold aligned in Ha.
  unfold Unpacker.unpack_fstring, Unpacker.get_position, Unpacker.get_buffer,
    Unpacker.set_position, bind, get, put, ret, raise.
  cbn [Unpacker.pos Unpacker.buf]. fold aligned.
  split; [|split; [|split; [|reflexivity]]].
  - intros Hn Hrem. destruct (Z.ltb_spec n 0); [lia|].
    cbn [Unpacker.pos Unpacker.buf].
    destruct (Z.ltb_spec (len b) (i + aligned)); [reflexivity | lia].
  - intros Hn Hrem. destruct (Z.ltb_spec n 0); [lia|].
    cbn [Unpacker.pos Unpacker.buf].
    destruct (Z.ltb_spec (len b) (i + aligned)); [lia|].
    cbn [Unpacker.pos Unpacker.buf].
    split; [reflexivity|]. intros Hpos. cbv zeta.
    rewrite py_slice_inside by lia. split; [reflexivity|].
    rewrite len_firstn by lia.
    unfold len at 1. rewrite length_skipn. unfold len in *. lia.
  - intros Hn. destruct (Z.ltb_spec n 0); [reflexivity | lia].
Qed.

(** Three meaningful bytes and one padding byte that is not zero: the read
    succeeds, consumes four bytes and returns the three. *)
Lemma unpack_fstring_aligned_witness :
  0 <= 0
  /\ Unpacker.unpack_fstring 3 (Unpacker.init [x61; x62; x63; xff; x64])
     = (Return [x61; x62; x63], Unpacker.mk [x61; x62; x63; xff; x64] 4)
  /\ Unpacker.unpack_fstring 5 (Unpacker.init [x61; x62; x63; xff; x64])
     = (Raise EOFError, Unpacker.init [x61; x62; x63; xff; x64]).
Proof.
  pose proof (unpack_fstring_aligned 3 (Unpacker.init [x61; x62; x63; xff; x64])) as H3.
  pose proof (unpack_fstring_aligned 5 (Unpacker.init [x61; x62; x63; xff; x64])) as H5.
  split; [lia | split].
  - exact (proj1 (proj2 (proj1 (proj2 H3) ltac:(lia) ltac:(vm_compute; discriminate))
                    ltac:(simpl; lia))).
  - exact (proj1 H5 ltac:(lia) ltac:(vm_compute; reflexivity)).
Defined.

(** C7 as stated fails at a negative cursor, which [set_position] stores
    unchecked: four bytes before the end of eight, twelve bytes count as
    remaining and [unpack_fstring 4] advances the cursor by four, but the slice
    [buffer[-4:0]] it returns is empty, not the four bytes at the prior
    cursor. *)
Lemma unpack_fstring_negative_cursor :
  (4 + 3) / 4 * 4 <= len [x01; x02; x03; x04; x05; x06; x07; x08] - (-4)
  /\ (Unpacker.set_position (-4) ;; Unpacker.unpack_fstring 4)
       (Unpacker.init [x01; x02; x03; x04; x05; x06; x07; x08])
     = (Return [], Unpacker.mk [x01; x02; x03; x04; x05; x06; x07; x08] 0)
  /\ len (@nil byte) <> 4.
Proof.
  split; [vm_compute; discriminate | split; [vm_compute; reflexivity|]].
  vm_compute. discriminate.
Qed.

(** ** pack_farray *)

Lemma for_each_writes {T} (enc : T -> list byte) (pack_item : T -> M Packer.t unit)
  (items : list T) :
  (forall x q, In x items ->
     pack_item x q = (Return tt, Packer.mk (Packer.buf q ++ enc x))) ->
  forall p,
    for_each items pack_item p
    = (Return tt, Packer.mk (Packer.buf p ++ flat_map enc items)).
Proof.
  induction items as [|x rest IH]; intros Hitem p.
  - cbn. rewrite app_nil_r. now destruct p.
  - cbn [for_each flat_map]. unfold bind.
    rewrite Hitem by (now left).
    rewrite IH by (intros; apply Hitem; now right).
    cbn [Packer.buf]. now rewrite <- app_assoc.
Qed.

(** C9: [pack_farray n items pack_item] raises [ValueError] and writes
    nothing whenever [len(items) != n]; when [len(items) == n] it is the loop
    that applies [pack_item] to each item in sequence order, with no length
    prefix, so that with an item packer that appends [enc x] for an item [x]
    the bytes written are the item encodings in order and nothing else. *)
Theorem pack_farray_exact {T} (enc : T -> list byte) (pack_item : T -> M Packer.t unit)
  (n : Z) (items : list T) (p : Packer.t) :
  (len items <> n ->
   Packer.pack_farray n items pack_item p = (Raise (ValueError "wrong array size"), p))
  /\ (len items = n ->
      Packer.pack_farray n items pack_item p = for_each items pack_item p
      /\ ((forall x q, In x items ->
             pack_item x q = (Return tt, Packer.mk (Packer.buf q ++ enc x))) ->
          Packer.pack_farray n items pack_item p
          = (Return tt, Packer.mk (Packer.buf p ++ flat_map enc items)))).
Proof.
  unfold Packer.pack_farray. split; intros Hn.
  - destruct (Z.eqb_spec (len items) n); [contradiction | reflexivity].
  - destruct (Z.eqb_spec (len items) n); [|contradiction]. cbn [negb].
    split; [reflexivity | intros Hitem; now apply for_each_writes].
Qed.

Lemma pack_farray_exact_witness :
  Packer.pack_farray 3 [1; 2] Packer.pack_int Packer.init
  = (Raise (ValueError "wrong array size"), Packer.init)
  /\ Packer.pack_farray 2 [1; 2] Packer.pack_int Packer.init
     = (Return tt, Packer.mk [x00; x00; x00; x01; x00; x00; x00; x02]).
Proof.
  split.
  - exact (proj1 (pack_farray_exact (be_encode 4) Packer.pack_int 3 [1; 2] Packer.init)
             ltac:(vm_compute; discriminate)).
  - refine (proj2 (proj2 (pack_farray_exact (be_encode 4) Packer.pack_int 2 [1; 2]
                            Packer.init) ltac:(reflexivity)) _).
    intros x q [<- | [<- | []]]; reflexivity.
Defined.

(** ** The fixed-size readers *)

(** The body shared by [unpack_uint], [unpack_int], [unpack_float] and
    [unpack_double]: the cursor is assigned first, the length test follows. *)
Lemma read_fixed {A} (k : Z) (decode : list byte -> A) (u : Unpacker.t) :
  0 <= Unpacker.pos u -> 0 < k ->
  (i <- Unpacker.get_position ;;
   (let j := i + k in
    Unpacker.set_position j ;;
    b <- Unpacker.get_buffer ;;
    (let data := py_slice b i j in
     if len data <? k then raise EOFError else ret (decode data))) ) u
  = (if len (Unpacker.buf u) <? Unpacker.pos u + k
     then Raise EOFError
     else Return (decode (firstn (Z.to_nat k)
                            (skipn (Z.to_nat (Unpacker.pos u)) (Unpacker.buf u)))),
     Unpacker.mk (Unpacker.buf u) (Unpacker.pos u + k)).
Proof.
  intros Hpos Hk. destruct u as [b i]. cbn [Unpacker.pos Unpacker.buf] in *.
  unfold Unpacker.get_position, Unpacker.set_position, Unpacker.get_buffer,
    bind, get, put, ret, raise.
  cbn [Unpacker.pos Unpacker.buf].
  rewrite len_py_slice by lia.
  pose proof (len_nonneg b).
  destruct (Z.ltb_spec (len b) (i + k)).
  - destruct (Z.ltb_spec (Z.min k (Z.max 0 (len b - i))) k); [reflexivity | lia].
  - destruct (Z.ltb_spec (Z.min k (Z.max 0 (len b - i))) k); [lia|].
    now rewrite py_slice_inside by lia.
Qed.

Lemma unpack_uint_run (u : Unpacker.t) :
  0 <= Unpacker.pos u ->
  Unpacker.unpack_uint u
  = (if len (Unpacker.buf u) <? Unpacker.pos u + 4
     then Raise EOFError
     else Return (struct_unpack_L
                    (firstn 4 (skipn (Z.to_nat (Unpacker.pos u)) (Unpacker.buf u)))),
     Unpacker.mk (Unpacker.buf u) (Unpacker.pos u + 4)).
Proof.
  intros H. exact (read_fixed (k := 4) struct_unpack_L u H ltac:(lia)).
Qed.

Lemma unpack_int_run (u : Unpacker.t) :
  0 <= Unpacker.pos u ->
  Unpacker.unpack_int u
  = (if len (Unpacker.buf u) <? Unpacker.pos u + 4
     then Raise EOFError
     else Return (struct_unpack_l
                    (firstn 4 (skipn (Z.to_nat (Unpacker.pos u)) (Unpacker.buf u)))),
     Unpacker.mk (Unpacker.buf u) (Unpacker.pos u + 4)).
Proof.
  intros H. exact (read_fixed (k := 4) struct_unpack_l u H ltac:(lia)).
Qed.

Lemma unpack_float_run (u : Unpacker.t) :
  0 <= Unpacker.pos u ->
  Unpacker.unpack_float u
  = (if len (Unpacker.buf u) <? Unpacker.pos u + 4
     then Raise EOFError
     else Return (struct_unpack_f
                    (firstn 4 (skipn (Z.to_nat (Unpacker.pos u)) (Unpacker.buf u)))),
     Unpacker.mk (Unpacker.buf u) (Unpacker.pos u + 4)).
Proof.
  intros H. exact (read_fixed (k := 4) struct_unpack_f u H ltac:(lia)).
Qed.

Lemma unpack_double_run (u : Unpacker.t) :
  0 <= Unpacker.pos u ->
  Unpacker.unpack_double u
  = (if len (Unpacker.buf u) <? Unpacker.pos u + 8
     then Raise EOFError
     else Return (struct_unpack_d
                    (firstn 8 (skipn (Z.to_nat (Unpacker.pos u)) (Unpacker.buf u)))),
     Unpacker.mk (Unpacker.buf u) (Unpacker.pos u + 8)).
Proof.
  intros H. exact (read_fixed (k := 8) struct_unpack_d u H ltac:(lia)).
Qed.

(** ** Error kinds *)

(** The loop of [unpack_list], from any iteration on: past the items it has
    read, a tag other than 0 or 1 stops it with [ConversionError]. *)
Lemma unpack_list_loop_bad_tag {T} (unpack_item : M Unpacker.t T)
  (u u' : Unpacker.t) (items : list T) :
  list_items unpack_item u items u' ->
  forall (fuel : nat) (acc : list T) (u1 : Unpacker.t) (tag : Z),
    Unpacker.unpack_uint u' = (Return tag, u1) -> tag <> 0 -> tag <> 1 ->
    (List.length items < fuel)%nat ->
    Unpacker.unpack_list_loop fuel unpack_item acc u
    = Some (Raise (ConversionError (Unpacker.tag_message tag)), u1).
Proof.
  induction 1 as [u | u v1 v2 u' item items Htag Hitem Hrest IH];
    intros fuel acc u1 tag Hread H0 H1 Hfuel;
    (destruct fuel as [|fuel]; [cbn in Hfuel; lia|]);
    cbn [Unpacker.unpack_list_loop].
  - rewrite Hread.
    destruct (Z.eqb_spec tag 0); [contradiction|].
    destruct (Z.eqb_spec tag 1); [contradiction|]. reflexivity.
  - rewrite Htag. cbn [Z.eqb Pos.eqb negb]. rewrite Hitem.
    apply IH; try assumption. cbn in Hfuel. lia.
Qed.

(** C5, as amended: [unpack_list] raises [ConversionError] when it reads a
    tag other than 0 or 1, whether that tag is the first one or follows any
    number of items, and [done] raises the base class [Error], which is
    neither a [ConversionError] nor the end-of-data kind, when the cursor has
    not reached the end of the buffer; both exceptions are instances of
    [Error] and neither is the end-of-data kind; [done] returns otherwise. *)
Theorem structural_error_kinds {T} (unpack_item : M Unpacker.t T) (fuel : nat)
  (u u' u1 : Unpacker.t) (items : list T) (tag : Z) :
  (list_items unpack_item u items u' ->
   Unpacker.unpack_uint u' = (Return tag, u1) -> tag <> 0 -> tag <> 1 ->
   (List.length items < fuel)%nat ->
   exists e, Unpacker.unpack_list fuel unpack_item u = Some (Raise e, u1)
             /\ e = ConversionError (Unpacker.tag_message tag)
             /\ isinstance_Error e = true /\ is_EOFError e = false)
  /\ (Unpacker.unpack_uint u = (Return tag, u1) -> tag <> 0 -> tag <> 1 ->
      exists e, Unpacker.unpack_list (S fuel) unpack_item u = Some (Raise e, u1)
                /\ e = ConversionError (Unpacker.tag_message tag)
                /\ isinstance_Error e = true /\ is_EOFError e = false)
  /\ (Unpacker.pos u < len (Unpacker.buf u) ->
      exists e, Unpacker.done u = (Raise e, u)
                /\ e = Error "unextracted data remains"
                /\ isinstance_Error e = true
                /\ is_ConversionError e = false /\ is_EOFError e = false)
  /\ (len (Unpacker.buf u) <= Unpacker.pos u -> Unpacker.done u = (Return tt, u)).
Proof.
  split; [|split; [|split]].
  - intros Hitems Hread H0 H1 Hfuel. unfold Unpacker.unpack_list.
    rewrite (unpack_list_loop_bad_tag Hitems [] Hread H0 H1 Hfuel).
    eexists. repeat split.
  - intros Hread H0 H1. unfold Unpacker.unpack_list.
    rewrite (unpack_list_loop_bad_tag (list_items_nil unpack_item u) (fuel := S fuel)
               [] Hread H0 H1 ltac:(cbn; lia)).
    eexists. repeat split.
  - intros Hlt. unfold Unpacker.done, bind, get, raise.
    destruct (Z.ltb_spec (Unpacker.pos u) (len (Unpacker.buf u))); [|lia].
    eexists. repeat split.
  - intros Hge. unfold Unpacker.done, bind, get, ret.
    destruct (Z.ltb_spec (Unpacker.pos u) (len (Unpacker.buf u))); [lia | reflexivity].
Qed.

(** The items 7 and 8, then the tag 2: the bad tag is the third one read. *)
Lemma structural_error_kinds_witness :
  (exists e,
      Unpacker.unpack_list 3 Unpacker.unpack_int
        (Unpacker.init [x00; x00; x00; x01; x00; x00; x00; x07;
                        x00; x00; x00; x01; x00; x00; x00; x08;
                        x00; x00; x00; x02])
      = Some (Raise e,
              Unpacker.mk [x00; x00; x00; x01; x00; x00; x00; x07;
                           x00; x00; x00; x01; x00; x00; x00; x08;
                           x00; x00; x00; x02] 20)
      /\ e = ConversionError "0 or 1 expected, got 2"
      /\ isinstance_Error e = true /\ is_EOFError e = false)
  /\ (exists e,
        Unpacker.unpack_list 1 Unpacker.unpack_int (Unpacker.init [x00; x00; x00; x02])
        = Some (Raise e, Unpacker.mk [x00; x00; x00; x02] 4)
        /\ e = ConversionError "0 or 1 expected, got 2"
        /\ isinstance_Error e = true /\ is_EOFError e = false)
  /\ (exists e, Unpacker.done (Unpacker.init [x00]) = (Raise e, Unpacker.init [x00])
                /\ e = Error "unextracted data remains"
                /\ isinstance_Error e = true
                /\ is_ConversionError e = false /\ is_EOFError e = false)
  /\ Unpacker.done (Unpacker.mk [x00] 1) = (Return tt, Unpacker.mk [x00] 1).
Proof.
  set (data := [x00; x00; x00; x01; x00; x00; x00; x07;
                x00; x00; x00; x01; x00; x00; x00; x08;
                x00; x00; x00; x02]).
  assert (Hitems : list_items Unpacker.unpack_int (Unpacker.init data) [7; 8]
                     (Unpacker.mk data 16)).
  { apply list_items_cons with (u1 := Unpacker.mk data 4) (u2 := Unpacker.mk data 8);
      [vm_compute; reflexivity | vm_compute; reflexivity|].
    apply list_items_cons with (u1 := Unpacker.mk data 12) (u2 := Unpacker.mk data 16);
      [vm_compute; reflexivity | vm_compute; reflexivity|].
    apply list_items_nil. }
  split; [|split; [|split]].
  - exact (proj1 (structural_error_kinds Unpacker.unpack_int 3
                    (Unpacker.init data) (Unpacker.mk data 16) (Unpacker.mk data 20)
                    [7; 8] 2)
             Hitems ltac:(vm_compute; reflexivity) ltac:(lia) ltac:(lia)
             ltac:(cbn; lia)).
  - exact (proj1 (proj2 (structural_error_kinds Unpacker.unpack_int 0
                    (Unpacker.init [x00; x00; x00; x02])
                    (Unpacker.init [x00; x00; x00; x02])
                    (Unpacker.mk [x00; x00; x00; x02] 4) [] 2))
             ltac:(vm_compute; reflexivity) ltac:(lia) ltac:(lia)).
  - exact (proj1 (proj2 (proj2 (structural_error_kinds Unpacker.unpack_int 0
                           (Unpacker.init [x00]) (Unpacker.init [x00])
                           (Unpacker.init [x00]) [] 0)))
             ltac:(vm_compute; reflexivity)).
  - exact (proj2 (proj2 (proj2 (structural_error_kinds Unpacker.unpack_int 0
                           (Unpacker.mk [x00] 1) (Unpacker.mk [x00] 1)
                           (Unpacker.mk [x00] 1) [] 0)))
             ltac:(vm_compute; discriminate)).
Defined.

(** C5 as stated fails: on the tag 2 [unpack_list] raises a
    [ConversionError], not a kind distinct from it. *)
Lemma unpack_list_bad_tag_kind :
  exists e u',
    Unpacker.unpack_list 1 Unpacker.unpack_int (Unpacker.init [x00; x00; x00; x02])
    = Some (Raise e, u')
    /\ is_ConversionError e = true.
Proof.
  do 2 eexists. split; [vm_compute; reflexivity | reflexivity].
Qed.

(** ** The cursor after an end-of-data failure *)

(** C2, as amended: [unpack_fstring] (alias [unpack_fopaque]) raises before
    any cursor mutation, so after a failing call the Unpacker is as it was
    before the call.  The composite readers do not roll back: when
    [unpack_string] has read its length prefix and the payload read fails with
    end-of-data, the cursor stays where the prefix read left it. *)
Theorem unpack_fstring_fails_clean (n : Z) (u u' : Unpacker.t) (e : exn) :
  (Unpacker.unpack_fstring n u = (Raise e, u') -> u' = u)
  /\ (Unpacker.unpack_fopaque n u = (Raise e, u') -> u' = u)
  /\ (forall u1,
        Unpacker.unpack_uint u = (Return n, u1) ->
        Unpacker.unpack_fstring n u1 = (Raise EOFError, u1) ->
        Unpacker.unpack_string u = (Raise EOFError, u1)
        /\ Unpacker.pos u1 = Unpacker.pos u + 4).
Proof.
  assert (Hclean : Unpacker.unpack_fstring n u = (Raise e, u') -> u' = u).
  { unfold Unpacker.unpack_fstring, Unpacker.get_position, Unpacker.get_buffer,
      Unpacker.set_position, bind, get, put, ret, raise.
    destruct (n <? 0); [congruence|].
    destruct (len (Unpacker.buf u) <? Unpacker.pos u + (n + 3) / 4 * 4);
      [congruence | discriminate]. }
  split; [exact Hclean | split; [exact Hclean|]].
  intros u1 Hlen Hpayload. split.
  - unfold Unpacker.unpack_string, bind. now rewrite Hlen.
  - revert Hlen.
    unfold Unpacker.unpack_uint, Unpacker.get_position, Unpacker.get_buffer,
      Unpacker.set_position, bind, get, put, ret, raise.
    cbn [Unpacker.pos Unpacker.buf].
    destruct (len (py_slice (Unpacker.buf u) (Unpacker.pos u) (Unpacker.pos u + 4)) <? 4);
      [discriminate | now intros [= _ <-]].
Qed.

Lemma unpack_fstring_fails_clean_witness :
  Unpacker.mk [x00; x00; x00; x08; x01; x02] 4 = Unpacker.mk [x00; x00; x00; x08; x01; x02] 4
  /\ Unpacker.unpack_string (Unpacker.init [x00; x00; x00; x08; x01; x02])
     = (Raise EOFError, Unpacker.mk [x00; x00; x00; x08; x01; x02] 4)
  /\ 4 = 0 + 4.
Proof.
  pose proof (unpack_fstring_fails_clean 8
                (Unpacker.mk [x00; x00; x00; x08; x01; x02] 4)
                (Unpacker.mk [x00; x00; x00; x08; x01; x02] 4) EOFError) as H4.
  pose proof (unpack_fstring_fails_clean 8
                (Unpacker.init [x00; x00; x00; x08; x01; x02])
                (Unpacker.mk [x00; x00; x00; x08; x01; x02] 4) EOFError) as H0.
  split.
  - exact (proj1 H4 ltac:(vm_compute; reflexivity)).
  - exact (proj2 (proj2 H0) _ ltac:(vm_compute; reflexivity) ltac:(vm_compute; reflexivity)).
Defined.

(** C2 as stated fails: [unpack_string] on a length prefix of 8 followed by
    two bytes raises end-of-data with the cursor at 4, not at its value 0
    before the call. *)
Lemma unpack_string_keeps_prefix_advance :
  exists u',
    Unpacker.unpack_string (Unpacker.init [x00; x00; x00; x08; x01; x02])
    = (Raise EOFError, u')
    /\ Unpacker.pos u' <> Unpacker.pos (Unpacker.init [x00; x00; x00; x08; x01; x02]).
Proof.
  eexists. split; [vm_compute; reflexivity | vm_compute; discriminate].
Qed.

(** C3: on a fresh Unpacker over two bytes, [unpack_uint] raises end-of-data
    and leaves the cursor at 4, past the end of the buffer: the invariant
    [0 <= cursor <= len(buffer)] does not hold after the failing call. *)
Theorem unpack_uint_overruns_on_failure :
  cursor_in_bounds (Unpacker.init [x00; x00])
  /\ Unpacker.unpack_uint (Unpacker.init [x00; x00])
     = (Raise EOFError, Unpacker.mk [x00; x00] 4)
  /\ ~ cursor_in_bounds (Unpacker.mk [x00; x00] 4).
Proof.
  split; [|split].
  - vm_compute. split; discriminate.
  - vm_compute. reflexivity.
  - vm_compute. intros [_ H]. now apply H.
Qed.

(** What the code does keep: a fixed-size read that returns leaves the cursor
    in bounds, and so does [unpack_fstring], whether it returns or raises. *)
Lemma unpack_uint_return_in_bounds (u u' : Unpacker.t) (v : Z) :
  cursor_in_bounds u -> Unpacker.unpack_uint u = (Return v, u') -> cursor_in_bounds u'.
Proof.
  unfold cursor_in_bounds. intros Hu. rewrite unpack_uint_run by lia.
  destruct (Z.ltb_spec (len (Unpacker.buf u)) (Unpacker.pos u + 4)); [discriminate|].
  intros [= _ <-]. cbn. lia.
Qed.

Lemma unpack_fstring_in_bounds (n : Z) (u u' : Unpacker.t) (r : outcome (list byte)) :
  cursor_in_bounds u -> Unpacker.unpack_fstring n u = (r, u') -> cursor_in_bounds u'.
Proof.
  unfold cursor_in_bounds. intros Hu.
  unfold Unpacker.unpack_fstring, Unpacker.get_position, Unpacker.get_buffer,
    Unpacker.set_position, bind, get, put, ret, raise.
  destruct (Z.ltb_spec n 0); [intros [= _ <-]; exact Hu|].
  pose proof (aligned_bounds n) as [Ha _].
  destruct (Z.ltb_spec (len (Unpacker.buf u)) (Unpacker.pos u + (n + 3) / 4 * 4)).
  - intros [= _ <-]. exact Hu.
  - intros [= _ <-]. cbn. lia.
Qed.

(** ** Lists *)

Lemma skipn_len_app {A} (pre rest : list A) :
  skipn (Z.to_nat (len pre)) (pre ++ rest) = rest.
Proof.
  unfold len. rewrite Nat2Z.id, skipn_app, skipn_all, Nat.sub_diag. reflexivity.
Qed.

Lemma firstn_be_encode_app (n : nat) (v : Z) (post : list byte) :
  firstn n (be_encode n v ++ post) = be_encode n v.
Proof.
  rewrite <- (length_be_encode n v) at 1.
  rewrite firstn_app, firstn_all, Nat.sub_diag, firstn_O. apply app_nil_r.
Qed.

Lemma struct_unpack_l_encode (v : Z) : int32 v -> struct_unpack_l (be_encode 4 v) = v.
Proof.
  unfold int32, struct_unpack_l. intros Hv. rewrite be_decode_encode.
  change (256 ^ Z.of_nat 4) with 4294967296. change (2 ^ 31) with 2147483648 in Hv.
  destruct (Z.le_gt_cases 0 v).
  - rewrite Z.mod_small by lia.
    destruct (Z.ltb_spec v 2147483648); lia.
  - replace (v mod 4294967296) with (v + 4294967296)
      by (apply (Z.mod_unique v 4294967296 (-1)); lia).
    destruct (Z.ltb_spec (v + 4294967296) 2147483648); lia.
Qed.

Lemma struct_unpack_L_encode (v : Z) :
  0 <= v < 2 ^ 32 -> struct_unpack_L (be_encode 4 v) = v.
Proof.
  unfold struct_unpack_L. intros Hv. rewrite be_decode_encode.
  now apply Z.mod_small.
Qed.

(** Reading a word that sits at the cursor, between [pre] and [post]. *)
Lemma unpack_uint_at (pre post : list byte) (v : Z) :
  0 <= v < 2 ^ 32 ->
  Unpacker.unpack_uint (Unpacker.mk (pre ++ be_encode 4 v ++ post) (len pre))
  = (Return v,
     Unpacker.mk ((pre ++ be_encode 4 v) ++ post) (len (pre ++ be_encode 4 v))).
Proof.
  intros Hv. pose proof (len_nonneg pre). pose proof (len_nonneg post).
  rewrite unpack_uint_run by (cbn; lia). cbn [Unpacker.pos Unpacker.buf].
  rewrite !len_app, len_be_encode.
  destruct (Z.ltb_spec (len pre + (Z.of_nat 4 + len post)) (len pre + 4)); [lia|].
  rewrite skipn_len_app. change 4%nat with (Z.to_nat 4) at 1.
  change (Z.to_nat 4) with 4%nat. rewrite firstn_be_encode_app.
  rewrite struct_unpack_L_encode by assumption.
  rewrite <- app_assoc. reflexivity.
Qed.

Lemma unpack_int_at (pre post : list byte) (v : Z) :
  int32 v ->
  Unpacker.unpack_int (Unpacker.mk (pre ++ be_encode 4 v ++ post) (len pre))
  = (Return v,
     Unpacker.mk ((pre ++ be_encode 4 v) ++ post) (len (pre ++ be_encode 4 v))).
Proof.
  intros Hv. pose proof (len_nonneg pre). pose proof (len_nonneg post).
  rewrite unpack_int_run by (cbn; lia). cbn [Unpacker.pos Unpacker.buf].
  rewrite !len_app, len_be_encode.
  destruct (Z.ltb_spec (len pre + (Z.of_nat 4 + len post)) (len pre + 4)); [lia|].
  rewrite skipn_len_app, firstn_be_encode_app.
  rewrite struct_unpack_l_encode by assumption.
  rewrite <- app_assoc. reflexivity.
Qed.

Lemma unpack_list_loop_wire (vs : list Z) :
  Forall int32 vs ->
  forall (fuel : nat) (pre : list byte) (acc : list Z),
    (List.length vs < fuel)%nat ->
    Unpacker.unpack_list_loop fuel Unpacker.unpack_int acc
      (Unpacker.mk (pre ++ list_wire vs) (len pre))
    = Some (Return (acc ++ vs),
            Unpacker.mk (pre ++ list_wire vs) (len (pre ++ list_wire vs))).
Proof.
  induction 1 as [|v vs Hv Hvs IH]; intros fuel pre acc Hfuel.
  - destruct fuel as [|fuel]; [cbn in Hfuel; lia|].
    cbn [Unpacker.unpack_list_loop]. unfold list_wire. cbn [flat_map app].
    rewrite <- (app_nil_r (be_encode 4 0)) at 1.
    rewrite unpack_uint_at by lia. cbn [Z.eqb].
    now rewrite !app_nil_r.
  - destruct fuel as [|fuel]; [cbn in Hfuel; lia|].
    cbn [Unpacker.unpack_list_loop].
    replace (list_wire (v :: vs))
      with (be_encode 4 1 ++ be_encode 4 v ++ list_wire vs)
      by (unfold list_wire; cbn [flat_map]; now rewrite <- !app_assoc).
    rewrite unpack_uint_at by lia. cbn [Z.eqb Pos.eqb negb].
    rewrite unpack_int_at by assumption.
    rewrite IH by (cbn in Hfuel; lia).
    rewrite <- !app_assoc. reflexivity.
Qed.

(** C8: for a list [vs] of in-range 32-bit signed values,
    [pack_list vs pack_int] appends, for each element in order, the uint
    encoding of the tag 1 and the element's four bytes, then the uint encoding
    of the tag 0, with no count; and [unpack_list unpack_int] on the buffer
    of a fresh Packer so filled returns exactly [vs] and leaves the cursor at
    the end, in any number of loop iterations that exceeds the length of
    [vs]. *)
Theorem pack_list_roundtrip (vs : list Z) (fuel : nat) (p : Packer.t) :
  Forall int32 vs -> (List.length vs < fuel)%nat ->
  Packer.pack_list vs Packer.pack_int p
  = (Return tt, Packer.mk (Packer.buf p ++ list_wire vs))
  /\ Packer.pack_list vs Packer.pack_int Packer.init
     = (Return tt, Packer.mk (list_wire vs))
  /\ Unpacker.unpack_list fuel Unpacker.unpack_int (Unpacker.init (list_wire vs))
     = Some (Return vs, Unpacker.mk (list_wire vs) (len (list_wire vs))).
Proof.
  intros Hvs Hfuel.
  assert (Hpack : forall q,
             Packer.pack_list vs Packer.pack_int q
             = (Return tt, Packer.mk (Packer.buf q ++ list_wire vs))).
  { intros q. unfold Packer.pack_list, bind.
    rewrite (for_each_writes (fun v => be_encode 4 1 ++ be_encode 4 v)).
    - rewrite pack_uint_ok by lia. cbn [Packer.buf].
      unfold list_wire. now rewrite <- app_assoc.
    - intros x r Hin. unfold bind.
      rewrite pack_uint_ok by lia.
      rewrite pack_int_ok by (rewrite Forall_forall in Hvs; now apply Hvs).
      cbn [Packer.buf]. now rewrite <- app_assoc. }
  split; [apply Hpack | split; [apply Hpack|]].
  unfold Unpacker.unpack_list, Unpacker.init.
  exact (@unpack_list_loop_wire vs Hvs fuel [] [] Hfuel).
Qed.

Lemma pack_list_roundtrip_witness :
  Forall int32 [1; 2]
  /\ Packer.pack_list [1; 2] Packer.pack_int Packer.init
     = (Return tt,
        Packer.mk [x00; x00; x00; x01; x00; x00; x00; x01;
                   x00; x00; x00; x01; x00; x00; x00; x02;
                   x00; x00; x00; x00])
  /\ Unpacker.unpack_list 3 Unpacker.unpack_int (Unpacker.init (list_wire [1; 2]))
     = Some (Return [1; 2], Unpacker.mk (list_wire [1; 2]) 20).
Proof.
  assert (Hvs : Forall int32 [1; 2])
    by (repeat constructor; vm_compute; discriminate).
  split; [exact Hvs|].
  exact (proj2 (@pack_list_roundtrip [1; 2] 3 Packer.init Hvs ltac:(cbn; lia))).
Defined.

(** ** Round trips of the scalar types *)

Lemma roundtrip_intro {A} (pack : A -> M Packer.t unit) (unpack : M Unpacker.t A)
  (v : A) (data : list byte) (u : Unpacker.t) :
  pack v Packer.init = (Return tt, Packer.mk data) ->
  unpack (Unpacker.init data) = (Return v, u) ->
  roundtrip pack unpack v.
Proof.
  intros Hp Hu. exists (Packer.mk data), data, u. repeat split; assumption.
Qed.

Lemma unpack_uint_first (post : list byte) (v : Z) :
  0 <= v < 2 ^ 32 ->
  Unpacker.unpack_uint (Unpacker.init (be_encode 4 v ++ post))
  = (Return v, Unpacker.mk (be_encode 4 v ++ post) 4).
Proof.
  intros Hv. exact (unpack_uint_at [] post Hv).
Qed.

Lemma unpack_int_first (post : list byte) (v : Z) :
  int32 v ->
  Unpacker.unpack_int (Unpacker.init (be_encode 4 v ++ post))
  = (Return v, Unpacker.mk (be_encode 4 v ++ post) 4).
Proof.
  intros Hv. exact (unpack_int_at [] post Hv).
Qed.

Lemma roundtrip_uint (v : Z) :
  0 <= v < 2 ^ 32 -> roundtrip Packer.pack_uint Unpacker.unpack_uint v.
Proof.
  intros Hv. eapply roundtrip_intro.
  - now apply pack_uint_ok.
  - cbn [Packer.buf Packer.init app].
    rewrite <- (app_nil_r (be_encode 4 v)). now apply unpack_uint_first.
Qed.

Lemma roundtrip_int (v : Z) :
  int32 v -> roundtrip Packer.pack_int Unpacker.unpack_int v.
Proof.
  intros Hv. eapply roundtrip_intro.
  - now apply pack_int_ok.
  - cbn [Packer.buf Packer.init app].
    rewrite <- (app_nil_r (be_encode 4 v)). now apply unpack_int_first.
Qed.

Lemma roundtrip_bool (v : bool) : roundtrip Packer.pack_bool Unpacker.unpack_bool v.
Proof.
  destruct v; (eapply roundtrip_intro; [reflexivity | vm_compute; reflexivity]).
Qed.

Lemma lor_halves (hi lo : Z) :
  0 <= lo < 2 ^ 32 -> Z.lor (Z.shiftl hi 32) lo = hi * 2 ^ 32 + lo.
Proof.
  intros Hlo.
  assert (Hdisjoint : Z.land (Z.shiftl hi 32) lo = 0).
  { apply Z.bits_inj'. intros n Hn. rewrite Z.land_spec, Z.bits_0.
    destruct (Z.lt_ge_cases n 32).
    - now rewrite Z.shiftl_spec_low.
    - rewrite <- (Z.mod_small lo (2 ^ 32)) by lia.
      rewrite Z.mod_pow2_bits_high by lia. apply andb_false_r. }
  rewrite <- Z.lxor_lor, <- Z.add_nocarry_lxor by assumption.
  now rewrite Z.shiftl_mul_pow2 by lia.
Qed.

Lemma shiftr_32_div (x : Z) : Z.shiftr x 32 = x / 2 ^ 32.
Proof. apply Z.shiftr_div_pow2. lia. Qed.

(** What [unpack_uhyper] returns on the bytes [pack_uhyper x] wrote. *)
Lemma unpack_uhyper_packed (x : Z) :
  Unpacker.unpack_uhyper (Unpacker.init (be_encode 8 (x mod 2 ^ 64)))
  = (Return (x mod 2 ^ 64), Unpacker.mk (be_encode 8 (x mod 2 ^ 64)) 8).
Proof.
  rewrite <- be_encode_halves.
  set (hi := Z.land (Z.shiftr x 32) 4294967295).
  set (lo := Z.land x 4294967295).
  assert (Hhi : 0 <= hi < 2 ^ 32)
    by (unfold hi; rewrite land_low32; apply Z.mod_pos_bound; lia).
  assert (Hlo : 0 <= lo < 2 ^ 32)
    by (unfold lo; rewrite land_low32; apply Z.mod_pos_bound; lia).
  unfold Unpacker.unpack_uhyper, bind, ret.
  rewrite unpack_uint_first by assumption.
  change (Unpacker.mk (be_encode 4 hi ++ be_encode 4 lo) 4)
    with (Unpacker.mk (be_encode 4 hi ++ be_encode 4 lo ++ []) (len (be_encode 4 hi))).
  rewrite unpack_uint_at by assumption.
  rewrite lor_halves by assumption.
  rewrite app_nil_r.
  replace (hi * 2 ^ 32 + lo) with (x mod 2 ^ 64); [reflexivity|].
  unfold hi, lo. rewrite !land_low32, shiftr_32_div.
  change (2 ^ 64) with (2 ^ 32 * 2 ^ 32). rewrite Z.rem_mul_r by lia. lia.
Qed.

Lemma roundtrip_uhyper (v : Z) :
  0 <= v < 2 ^ 64 -> roundtrip Packer.pack_uhyper Unpacker.unpack_uhyper v.
Proof.
  intros Hv. eapply roundtrip_intro.
  - exact (pack_uhyper_halves v Packer.init).
  - cbn [Packer.buf Packer.init app]. rewrite be_encode_halves.
    rewrite unpack_uhyper_packed. now rewrite Z.mod_small by assumption.
Qed.

Lemma roundtrip_hyper (v : Z) :
  - 2 ^ 63 <= v < 2 ^ 63 -> roundtrip Packer.pack_hyper Unpacker.unpack_hyper v.
Proof.
  intros Hv. eapply roundtrip_intro.
  - exact (pack_uhyper_halves v Packer.init).
  - cbn [Packer.buf Packer.init app]. rewrite be_encode_halves.
    unfold Unpacker.unpack_hyper, bind. rewrite unpack_uhyper_packed.
    set (b := be_encode 8 (v mod 2 ^ 64)).
    change (2 ^ 63) with 9223372036854775808 in Hv.
    change (2 ^ 64) with 18446744073709551616.
    destruct (Z.le_gt_cases 0 v).
    + rewrite Z.mod_small by lia.
      destruct (Z.leb_spec 9223372036854775808 v); [lia | reflexivity].
    + replace (v mod 18446744073709551616) with (v + 18446744073709551616)
        by (apply (Z.mod_unique v 18446744073709551616 (-1)); lia).
      destruct (Z.leb_spec 9223372036854775808 (v + 18446744073709551616)); [|lia].
      replace (v + 18446744073709551616 - 18446744073709551616) with v by lia.
      reflexivity.
Qed.

(** ** IEEE-754 interchange formats *)

Lemma digits2_bounds (m : positive) :
  2 ^ (Zpos (digits2_pos m) - 1) <= Zpos m < 2 ^ Zpos (digits2_pos m).
Proof.
  induction m as [p IH | p IH |]; cbn [digits2_pos];
    [rewrite Pos2Z.inj_succ, (Pos2Z.inj_xI p) | rewrite Pos2Z.inj_succ, (Pos2Z.inj_xO p)
    | cbn; lia];
    replace (Z.succ (Zpos (digits2_pos p)) - 1)
      with (Z.succ (Zpos (digits2_pos p) - 1)) by lia;
    rewrite !Z.pow_succ_r by lia;
    revert IH;
    generalize (2 ^ (Zpos (digits2_pos p) - 1)), (2 ^ Zpos (digits2_pos p));
    intros; lia.
Qed.

Lemma bounded_cases (prec emax : Z) (m : positive) (e : Z) :
  bounded prec emax m e = true ->
  e <= emax - prec
  /\ emin prec emax <= e
  /\ Zpos (digits2_pos m) <= prec
  /\ (Zpos (digits2_pos m) = prec \/ e = emin prec emax).
Proof.
  unfold bounded, canonical_mantissa, fexp. intros H.
  apply andb_true_iff in H as [Hc He].
  apply Z.eqb_eq in Hc. apply Z.leb_le in He. lia.
Qed.

Section InterchangeFacts.
Variables mw ew : Z.
Hypothesis Hmw : 0 < mw.
Hypothesis Hew : 0 < ew.

Let P := 2 ^ mw.
Let Q := 2 ^ ew.

Local Lemma P_pos : 0 < P.
Proof. apply Z.pow_pos_nonneg; lia. Qed.

Local Lemma Q_emax : Q = 2 * 2 ^ (ew - 1) /\ 0 < 2 ^ (ew - 1).
Proof.
  unfold Q. split.
  - rewrite <- Z.pow_succ_r by lia. f_equal. lia.
  - apply Z.pow_pos_nonneg; lia.
Qed.

Lemma split_join_bits (s : bool) (E M : Z) :
  0 <= M < P -> 0 <= E < Q ->
  join_bits mw ew s E M mod P = M
  /\ (join_bits mw ew s E M / P) mod Q = E
  /\ (Q <=? join_bits mw ew s E M / P) = s.
Proof.
  intros HM HE. unfold join_bits. fold P Q. pose proof P_pos as HP.
  assert (Hdiv : (((if s then Q else 0) + E) * P + M) / P = (if s then Q else 0) + E).
  { rewrite Z.div_add_l by lia. rewrite Z.div_small by lia. lia. }
  rewrite Hdiv. split; [|split].
  - rewrite Z.add_comm, Z_mod_plus_full. apply Z.mod_small. lia.
  - destruct s.
    + rewrite Z.add_comm. replace (E + Q) with (E + 1 * Q) by lia.
      rewrite Z_mod_plus_full. apply Z.mod_small. lia.
    + apply Z.mod_small. lia.
  - destruct s; [apply Z.leb_le | apply Z.leb_gt]; lia.
Qed.

Lemma join_bits_range (s : bool) (E M : Z) :
  0 <= M < P -> 0 <= E < Q -> 0 <= join_bits mw ew s E M < 2 * Q * P.
Proof.
  intros HM HE. unfold join_bits. fold P Q. destruct s; nia.
Qed.

(** The fields chosen for a valid float fit their widths. *)
Lemma bits_of_float_fields (f : spec_float) :
  valid_binary (mw + 1) (2 ^ (ew - 1)) f = true ->
  exists s E M,
    bits_of_float mw ew f = join_bits mw ew s E M
    /\ 0 <= M < P /\ 0 <= E < Q
    /\ f = (if E =? 0 then
              match M with
              | Zpos p => S754_finite s p (emin (mw + 1) (2 ^ (ew - 1)))
              | _ => S754_zero s
              end
            else if E =? Q - 1 then
              if M =? 0 then S754_infinity s else S754_nan
            else
              match M + P with
              | Zpos p => S754_finite s p (E - 1 + emin (mw + 1) (2 ^ (ew - 1)))
              | _ => S754_nan
              end).
Proof.
  pose proof P_pos as HP. pose proof Q_emax as [HQ Hemax].
  destruct f as [s | s | | s m e]; cbn [valid_binary bits_of_float]; intros Hvalid.
  - exists s, 0, 0. repeat split; try lia.
  - exists s, (Q - 1), 0. fold Q. split; [reflexivity|]. repeat split; try lia.
    destruct (Z.eqb_spec (Q - 1) 0); [lia|]. now rewrite Z.eqb_refl.
  - exists false, (Q - 1), (2 ^ (mw - 1)). fold Q. split; [reflexivity|].
    assert (HPhalf : P = 2 * 2 ^ (mw - 1)).
    { unfold P. rewrite <- Z.pow_succ_r by lia. f_equal. lia. }
    assert (0 < 2 ^ (mw - 1)) by (apply Z.pow_pos_nonneg; lia).
    repeat split; try lia.
    destruct (Z.eqb_spec (Q - 1) 0); [lia|]. rewrite Z.eqb_refl.
    destruct (Z.eqb_spec (2 ^ (mw - 1)) 0); [lia | reflexivity].
  - apply bounded_cases in Hvalid as (Hmax & Hmin & Hd & Hcanon).
    pose proof (digits2_bounds m) as [Hlo Hhi].
    fold P. unfold emin in *.
    destruct (Z.leb_spec P (Zpos m)) as [Hnormal | Hsub].
    + assert (Hdigits : Zpos (digits2_pos m) = mw + 1).
      { destruct (Z.eq_dec (Zpos (digits2_pos m)) (mw + 1)) as [|Hne]; [assumption|].
        assert (Hle : Zpos (digits2_pos m) <= mw) by lia.
        apply (Z.pow_le_mono_r 2) in Hle; [fold P in Hle; lia | lia]. }
      rewrite Hdigits in Hhi. rewrite Z.pow_add_r in Hhi by lia. fold P in Hhi.
      change (2 ^ 1) with 2 in Hhi.
      exists s, (e - (3 - 2 ^ (ew - 1) - (mw + 1)) + 1), (Zpos m - P).
      split; [reflexivity|]. repeat split; try lia.
      destruct (Z.eqb_spec (e - (3 - 2 ^ (ew - 1) - (mw + 1)) + 1) 0); [lia|].
      destruct (Z.eqb_spec (e - (3 - 2 ^ (ew - 1) - (mw + 1)) + 1) (Q - 1)); [lia|].
      replace (Zpos m - P + P) with (Zpos m) by lia. f_equal. lia.
    + assert (Hdigits : Zpos (digits2_pos m) <= mw).
      { destruct (Z.le_gt_cases (Zpos (digits2_pos m)) mw) as [|Hgt]; [assumption|].
        assert (Hle : mw <= Zpos (digits2_pos m) - 1) by lia.
        apply (Z.pow_le_mono_r 2) in Hle; [fold P in Hle; lia | lia]. }
      exists s, 0, (Zpos m). split; [reflexivity|]. repeat split; try lia.
      cbn [Z.eqb]. f_equal. lia.
Qed.

Lemma float_of_bits_of_float (f : spec_float) :
  valid_binary (mw + 1) (2 ^ (ew - 1)) f = true ->
  float_of_bits mw ew (bits_of_float mw ew f) = f
  /\ 0 <= bits_of_float mw ew f < 2 * Q * P.
Proof.
  intros Hvalid.
  destruct (bits_of_float_fields f Hvalid) as (s & E & M & -> & HM & HE & Hf).
  split; [|now apply join_bits_range].
  unfold float_of_bits. fold P Q.
  destruct (split_join_bits s HM HE) as (-> & -> & ->).
  now symmetry.
Qed.
End InterchangeFacts.

Lemma double_of_bits_of_double (v : spec_float) :
  valid_binary 53 1024 v = true ->
  float_of_bits 52 11 (bits_of_float 52 11 v) = v
  /\ 0 <= bits_of_float 52 11 v < 2 ^ 64.
Proof.
  intros Hv.
  exact (@float_of_bits_of_float 52 11 ltac:(lia) ltac:(lia) v Hv).
Qed.

Lemma single_of_bits_of_single (y : spec_float) :
  valid_binary 24 128 y = true ->
  float_of_bits 23 8 (bits_of_float 23 8 y) = y
  /\ 0 <= bits_of_float 23 8 y < 2 ^ 32.
Proof.
  intros Hy.
  exact (@float_of_bits_of_float 23 8 ltac:(lia) ltac:(lia) y Hy).
Qed.

Lemma unpack_double_first (x : Z) :
  0 <= x < 2 ^ 64 ->
  Unpacker.unpack_double (Unpacker.init (be_encode 8 x))
  = (Return (float_of_bits 52 11 x), Unpacker.mk (be_encode 8 x) 8).
Proof.
  intros Hx. rewrite unpack_double_run by (cbn; lia).
  cbn [Unpacker.init Unpacker.pos Unpacker.buf]. rewrite len_be_encode.
  change (Z.of_nat 8 <? 0 + 8) with false. cbv iota.
  change (Z.to_nat 0) with 0%nat. cbn [skipn].
  rewrite <- (app_nil_r (be_encode 8 x)) at 1. rewrite firstn_be_encode_app.
  unfold struct_unpack_d. rewrite be_decode_encode.
  change (256 ^ Z.of_nat 8) with (2 ^ 64). now rewrite Z.mod_small by assumption.
Qed.

Lemma unpack_float_first (x : Z) :
  0 <= x < 2 ^ 32 ->
  Unpacker.unpack_float (Unpacker.init (be_encode 4 x))
  = (Return (single_to_double (float_of_bits 23 8 x)), Unpacker.mk (be_encode 4 x) 4).
Proof.
  intros Hx. rewrite unpack_float_run by (cbn; lia).
  cbn [Unpacker.init Unpacker.pos Unpacker.buf]. rewrite len_be_encode.
  change (Z.of_nat 4 <? 0 + 4) with false. cbv iota.
  change (Z.to_nat 0) with 0%nat. cbn [skipn].
  rewrite <- (app_nil_r (be_encode 4 x)) at 1. rewrite firstn_be_encode_app.
  unfold struct_unpack_f. rewrite be_decode_encode.
  change (256 ^ Z.of_nat 4) with (2 ^ 32). now rewrite Z.mod_small by assumption.
Qed.

Lemma roundtrip_double (v : spec_float) :
  is_double v -> roundtrip Packer.pack_double Unpacker.unpack_double v.
Proof.
  intros [Hv _]. destruct (double_of_bits_of_double v Hv) as [Hback Hrange].
  apply roundtrip_intro
    with (data := be_encode 8 (bits_of_float 52 11 v))
         (u := Unpacker.mk (be_encode 8 (bits_of_float 52 11 v)) 8).
  - reflexivity.
  - rewrite unpack_double_first by assumption. now rewrite Hback.
Qed.

(** ** Conversions between binary32 and binary64 *)

Lemma iter_pos_iter {A} (f : A -> A) (n : positive) (x : A) :
  iter_pos f n x = Pos.iter f x n.
Proof.
  revert x. induction n as [n IH | n IH |]; intros x; cbn [iter_pos Pos.iter].
  - rewrite !IH, !Pos.iter_swap. reflexivity.
  - rewrite !IH. reflexivity.
  - reflexivity.
Qed.

Lemma digits2_iter_xO (m k : positive) :
  Zpos (digits2_pos (Pos.iter xO m k)) = Zpos (digits2_pos m) + Zpos k.
Proof.
  induction k as [|k IH] using Pos.peano_ind.
  - cbn [Pos.iter digits2_pos]. lia.
  - rewrite Pos.iter_succ. cbn [digits2_pos]. lia.
Qed.

Lemma shr_iter_xO (m k : positive) :
  Pos.iter shr_1 (Build_shr_record (Zpos (Pos.iter xO m k)) false false) k
  = Build_shr_record (Zpos m) false false.
Proof.
  induction k as [|k IH] using Pos.peano_ind.
  - reflexivity.
  - rewrite Pos.iter_succ_r, Pos.iter_succ. cbn [shr_1 orb]. exact IH.
Qed.

Section Rounding.
Variables prec emax : Z.

(** Rounding a number that is already in the format returns it. *)
Lemma binary_round_aux_canonical (s : bool) (m : positive) (e : Z) :
  bounded prec emax m e = true ->
  binary_round_aux prec emax s (Zpos m) e loc_Exact = S754_finite s m e.
Proof.
  intros Hb. unfold bounded, canonical_mantissa in Hb.
  apply andb_true_iff in Hb as [Hc He]. apply Z.eqb_eq in Hc.
  unfold binary_round_aux, shr_fexp. cbn [Zdigits2 shr_record_of_loc].
  rewrite Hc, Z.sub_diag. cbn [shr shr_m loc_of_shr_record round_nearest_even Zdigits2].
  rewrite Hc, Z.sub_diag. cbn [shr shr_m]. now rewrite He.
Qed.

(** Narrowing: a number of the format whose significand carries [k] extra
    zero bits at the bottom rounds to the number itself. *)
Lemma binary_round_shifted (s : bool) (m k : positive) (e : Z) :
  bounded prec emax m e = true ->
  binary_round prec emax s (Pos.iter xO m k) (e - Zpos k) = S754_finite s m e.
Proof.
  intros Hb. pose proof Hb as Hb'. unfold bounded, canonical_mantissa in Hb'.
  apply andb_true_iff in Hb' as [Hc He]. apply Z.eqb_eq in Hc.
  assert (Hfexp : fexp prec emax (Zpos (digits2_pos (Pos.iter xO m k)) + (e - Zpos k)) = e).
  { rewrite digits2_iter_xO. rewrite <- Hc at 2. f_equal. lia. }
  unfold binary_round. rewrite Hfexp. unfold shl_align.
  replace (e - (e - Zpos k)) with (Zpos k) by lia.
  unfold binary_round_aux, shr_fexp at 1. cbn [Zdigits2 shr_record_of_loc].
  rewrite Hfexp. replace (e - (e - Zpos k)) with (Zpos k) by lia.
  cbn [shr]. rewrite iter_pos_iter, shr_iter_xO.
  cbn [shr_m loc_of_shr_record round_nearest_even].
  replace (e - Zpos k + Zpos k) with e by lia.
  unfold shr_fexp. cbn [Zdigits2 shr_record_of_loc].
  rewrite Hc, Z.sub_diag. cbn [shr shr_m]. now rewrite He.
Qed.

(** Widening: a number with fewer digits than the format has is aligned to
    the format by appending zero bits, exactly. *)
Lemma binary_round_widen (s : bool) (m k : positive) (e : Z) :
  Zpos (digits2_pos m) + Zpos k = prec ->
  emin prec emax <= e - Zpos k <= emax - prec ->
  binary_round prec emax s m e = S754_finite s (Pos.iter xO m k) (e - Zpos k)
  /\ bounded prec emax (Pos.iter xO m k) (e - Zpos k) = true.
Proof.
  intros Hd He.
  assert (Hb : bounded prec emax (Pos.iter xO m k) (e - Zpos k) = true).
  { unfold bounded, canonical_mantissa, fexp. rewrite digits2_iter_xO.
    apply andb_true_iff. split; [apply Z.eqb_eq | apply Z.leb_le]; lia. }
  split; [|exact Hb].
  unfold binary_round.
  replace (fexp prec emax (Zpos (digits2_pos m) + e)) with (e - Zpos k)
    by (unfold fexp; lia).
  unfold shl_align. replace (e - Zpos k - e) with (Zneg k) by lia.
  now apply binary_round_aux_canonical.
Qed.
End Rounding.

(** A valid binary32 number, seen as a binary64 number. *)
Lemma single_to_double_finite (s : bool) (m : positive) (e : Z) :
  bounded 24 128 m e = true ->
  exists k,
    single_to_double (S754_finite s m e) = S754_finite s (Pos.iter xO m k) (e - Zpos k)
    /\ bounded 53 1024 (Pos.iter xO m k) (e - Zpos k) = true.
Proof.
  intros Hb. apply bounded_cases in Hb as (Hmax & Hmin & Hd & _).
  unfold emin in Hmin.
  pose proof (Pos2Z.is_pos (digits2_pos m)) as Hdpos.
  exists (Z.to_pos (53 - Zpos (digits2_pos m))).
  apply binary_round_widen; unfold emin; rewrite Z2Pos.id; lia.
Qed.

Lemma double_to_single_to_double (y : spec_float) :
  valid_binary 24 128 y = true ->
  double_to_single (single_to_double y) = y
  /\ valid_binary 53 1024 (single_to_double y) = true.
Proof.
  destruct y as [s | s | | s m e]; cbn [valid_binary]; intros Hy;
    try (split; reflexivity).
  destruct (@single_to_double_finite s m e Hy) as (k & -> & Hb).
  split; [|exact Hb].
  cbn [double_to_single]. now apply binary_round_shifted.
Qed.

Lemma roundtrip_float (y : spec_float) :
  is_single y -> roundtrip Packer.pack_float Unpacker.unpack_float (single_to_double y).
Proof.
  intros [Hy _].
  destruct (double_to_single_to_double y Hy) as [Hback _].
  destruct (single_of_bits_of_single y Hy) as [Hbits Hrange].
  assert (Hpack : struct_pack_f (single_to_double y) = inr (be_encode 4 (bits_of_float 23 8 y))).
  { unfold struct_pack_f. rewrite Hback.
    destruct y as [s | s | | s m e]; try reflexivity. }
  apply roundtrip_intro
    with (data := be_encode 4 (bits_of_float 23 8 y))
         (u := Unpacker.mk (be_encode 4 (bits_of_float 23 8 y)) 4).
  - unfold Packer.pack_float, raise_conversion_error, try_except, bind.
    now rewrite Hpack.
  - rewrite unpack_float_first by assumption. now rewrite Hbits.
Qed.

Lemma Zpos_iter_xO (p k : positive) : Zpos (Pos.iter xO p k) = Zpos p * 2 ^ Zpos k.
Proof.
  induction k as [|k IH] using Pos.peano_ind.
  - cbn [Pos.iter]. rewrite (Pos2Z.inj_xO p). change (2 ^ 1) with 2. lia.
  - rewrite Pos.iter_succ, (Pos2Z.inj_xO (Pos.iter xO p k)), IH.
    rewrite Pos2Z.inj_succ, Z.pow_succ_r by lia. ring.
Qed.

Lemma single_exact_image (v : spec_float) :
  valid_binary 53 1024 v = true -> single_exact v = true ->
  exists y, valid_binary 24 128 y = true /\ v = single_to_double y.
Proof.
  destruct v as [s | s | | s m e]; cbn [valid_binary single_exact]; intros Hv Hexact.
  - now exists (S754_zero s).
  - now exists (S754_infinity s).
  - now exists S754_nan.
  - apply andb_true_iff in Hexact as [Hmod Hfit].
    apply Z.eqb_eq in Hmod. apply Z.leb_le in Hfit.
    apply bounded_cases in Hv as (Hmax & Hmin & Hd & Hcanon). unfold emin in *.
    set (k := Z.max (e + 29) (-149) - e) in *.
    assert (Hk : 0 < k) by (unfold k; lia).
    assert (Hpow : 0 < 2 ^ k) by (apply Z.pow_pos_nonneg; lia).
    apply Z.mod_divide in Hmod; [|lia]. destruct Hmod as [q Hq].
    assert (Hqpos : 0 < q) by nia.
    destruct q as [|m32|]; try lia.
    assert (Hm : m = Pos.iter xO m32 (Z.to_pos k)).
    { apply Pos2Z.inj. rewrite Zpos_iter_xO, Z2Pos.id by lia. exact Hq. }
    pose proof (digits2_iter_xO m32 (Z.to_pos k)) as Hdigits.
    rewrite <- Hm, Z2Pos.id in Hdigits by lia.
    pose proof (Pos2Z.is_pos (digits2_pos m32)) as Hd32.
    assert (Hd53 : Zpos (digits2_pos m) = 53) by (unfold k in *; lia).
    exists (S754_finite s m32 (e + k)). split.
    + cbn [valid_binary]. unfold bounded, canonical_mantissa, fexp, emin.
      apply andb_true_iff. split; [apply Z.eqb_eq | apply Z.leb_le]; unfold k in *; lia.
    + cbn [single_to_double].
      destruct (@binary_round_widen 53 1024 s m32 (Z.to_pos k) (e + k)) as [-> _].
      * rewrite Z2Pos.id by lia. lia.
      * unfold emin. rewrite Z2Pos.id by lia. lia.
      * rewrite <- Hm. f_equal. rewrite Z2Pos.id by lia. lia.
Qed.

Lemma roundtrip_float_exact (v : spec_float) :
  is_double v -> single_exact v = true ->
  roundtrip Packer.pack_float Unpacker.unpack_float v.
Proof.
  intros [Hv Hnan] Hexact.
  destruct (single_exact_image v Hv Hexact) as (y & Hy & ->).
  apply roundtrip_float. split; [exact Hy|].
  intros ->. now apply Hnan.
Qed.

(** ** Scalar round trips, together *)

(** C1: for every scalar type and every value [v] that the type represents,
    packing [v] into a fresh Packer and decoding the Packer's buffer with a
    fresh Unpacker returns [v]: [uint] for [0 <= v < 2^32]; [int] and its
    alias [enum] for [-2^31 <= v < 2^31]; [bool] for both booleans; [uhyper]
    for [0 <= v < 2^64]; [hyper] for [-2^63 <= v < 2^63]; [double] for every
    binary64 number; [float] for every binary64 number that is a binary32
    number.  NaN, which compares unequal to itself, is not among the
    values. *)
Theorem scalar_roundtrip :
  (forall v, 0 <= v < 2 ^ 32 -> roundtrip Packer.pack_uint Unpacker.unpack_uint v)
  /\ (forall v, - 2 ^ 31 <= v < 2 ^ 31 -> roundtrip Packer.pack_int Unpacker.unpack_int v)
  /\ (forall v, - 2 ^ 31 <= v < 2 ^ 31 -> roundtrip Packer.pack_enum Unpacker.unpack_enum v)
  /\ (forall v : bool, roundtrip Packer.pack_bool Unpacker.unpack_bool v)
  /\ (forall v, 0 <= v < 2 ^ 64 -> roundtrip Packer.pack_uhyper Unpacker.unpack_uhyper v)
  /\ (forall v, - 2 ^ 63 <= v < 2 ^ 63 -> roundtrip Packer.pack_hyper Unpacker.unpack_hyper v)
  /\ (forall v, is_double v -> single_exact v = true ->
                roundtrip Packer.pack_float Unpacker.unpack_float v)
  /\ (forall v, is_double v -> roundtrip Packer.pack_double Unpacker.unpack_double v).
Proof.
  split; [exact roundtrip_uint|].
  split; [exact roundtrip_int|].
  split; [exact roundtrip_int|].
  split; [exact roundtrip_bool|].
  split; [exact roundtrip_uhyper|].
  split; [exact roundtrip_hyper|].
  split; [exact roundtrip_float_exact | exact roundtrip_double].
Qed.

Lemma scalar_roundtrip_witness :
  roundtrip Packer.pack_uint Unpacker.unpack_uint 4294967295
  /\ roundtrip Packer.pack_int Unpacker.unpack_int (-2147483648)
  /\ roundtrip Packer.pack_enum Unpacker.unpack_enum 2147483647
  /\ roundtrip Packer.pack_uhyper Unpacker.unpack_uhyper 18446744073709551615
  /\ roundtrip Packer.pack_hyper Unpacker.unpack_hyper (-1)
  /\ roundtrip Packer.pack_float Unpacker.unpack_float
       (S754_finite false 6755399441055744 (-52))
  /\ roundtrip Packer.pack_double Unpacker.unpack_double
       (S754_finite false 7205759403792794 (-56)).
Proof.
  destruct scalar_roundtrip as (Huint & Hint & Henum & _ & Huhyper & Hhyper & Hfloat & Hdouble).
  split; [apply Huint; lia|].
  split; [apply Hint; lia|].
  split; [apply Henum; lia|].
  split; [apply Huhyper; lia|].
  split; [apply Hhyper; lia|].
  split.
  - apply Hfloat; [split; [reflexivity | discriminate] | reflexivity].
  - apply Hdouble. split; [reflexivity | discriminate].
Defined.

(** Every binary32 number, widened, passes [single_exact]. *)
Lemma single_exact_complete (y : spec_float) :
  valid_binary 24 128 y = true -> single_exact (single_to_double y) = true.
Proof.
  destruct y as [s | s | | s m e]; cbn [valid_binary]; intros Hy; try reflexivity.
  destruct (@single_to_double_finite s m e Hy) as (k & -> & Hb).
  apply bounded_cases in Hy as (Hmax & Hmin & Hd & Hcanon).
  apply bounded_cases in Hb as (_ & Hmin' & Hd' & Hcanon').
  rewrite digits2_iter_xO in Hd', Hcanon'. unfold emin in *.
  pose proof (Pos2Z.is_pos (digits2_pos m)) as Hdpos.
  cbn [single_exact].
  replace (Z.max (e - Zpos k + 29) (-149) - (e - Zpos k)) with (Zpos k) by lia.
  apply andb_true_iff. split; [apply Z.eqb_eq | apply Z.leb_le; lia].
  rewrite Zpos_iter_xO. apply Z.mod_mul.
  pose proof (Z.pow_pos_nonneg 2 (Zpos k)). lia.
Qed.

(** A binary64 number that is not a binary32 number is rounded by
    [pack_float]: the double nearest to one tenth comes back as the single
    nearest to one tenth. *)
Lemma pack_float_rounds :
  let tenth := S754_finite false 7205759403792794 (-56) in
  is_double tenth
  /\ single_exact tenth = false
  /\ Packer.pack_float tenth Packer.init = (Return tt, Packer.mk [x3d; xcc; xcc; xcd])
  /\ Unpacker.unpack_float (Unpacker.init [x3d; xcc; xcc; xcd])
     = (Return (S754_finite false 7205759511166976 (-56)),
        Unpacker.mk [x3d; xcc; xcc; xcd] 4).
Proof.
  split; [split; [reflexivity | discriminate]|].
  split; [reflexivity|].
  split; vm_compute; reflexivity.
Qed.

(** * Further properties of the codec *)

(** ** Words *)

Lemma be_decode_cons (b : byte) (t : list byte) :
  be_decode (b :: t) = Z_of_byte b * 256 ^ len t + be_decode t.
Proof.
  change (b :: t) with ([b] ++ t). rewrite be_decode_app.
  assert (be_decode [b] = Z_of_byte b) as -> by (unfold be_decode; cbn; lia).
  reflexivity.
Qed.

(** The big-endian encoding is canonical: the bytes of a word are the only
    bytes that decode to it. *)
Lemma be_encode_decode (l : list byte) : be_encode (List.length l) (be_decode l) = l.
Proof.
  induction l as [|b t IH]; [reflexivity|].
  cbn [List.length be_encode]. rewrite be_decode_cons, shiftr_bytes.
  pose proof (be_decode_range t) as Ht. unfold len in *.
  pose proof (pow256_pos (List.length t)) as Hp.
  f_equal.
  - rewrite Z.div_add_l, Z.div_small by lia.
    rewrite Z.add_0_r. apply byte_of_Z_of_byte.
  - transitivity (be_encode (List.length t) (be_decode t)); [|exact IH].
    apply be_encode_eqm.
    rewrite Z.add_comm, Z_mod_plus_full. reflexivity.
Qed.

Lemma firstn_plus {A} (n m : nat) (l : list A) :
  firstn (n + m) l = firstn n l ++ firstn m (skipn n l).
Proof.
  revert l. induction n as [|n IH]; intros l; [reflexivity|].
  destruct l as [|a l]; cbn [Nat.add firstn skipn app].
  - now rewrite firstn_nil.
  - now rewrite IH.
Qed.

Lemma len_bytes_at (u : Unpacker.t) (k : nat) :
  0 <= Unpacker.pos u -> Z.of_nat k <= remaining u -> len (bytes_at u k) = Z.of_nat k.
Proof.
  unfold remaining, bytes_at, len. intros Hpos Hk.
  rewrite length_firstn, length_skipn. lia.
Qed.

Lemma bytes_at_plus (u : Unpacker.t) (n m : nat) :
  0 <= Unpacker.pos u ->
  bytes_at u (n + m) = bytes_at u n ++ bytes_at (advance u (Z.of_nat n)) m.
Proof.
  intros Hpos. unfold bytes_at, advance. cbn [Unpacker.pos Unpacker.buf].
  rewrite firstn_plus, skipn_skipn. do 3 f_equal. lia.
Qed.

(** What the four fixed-size readers do, in terms of the bytes at the
    cursor. *)
Lemma unpack_uint_bytes (u : Unpacker.t) :
  0 <= Unpacker.pos u ->
  Unpacker.unpack_uint u
  = (if remaining u <? 4 then Raise EOFError else Return (be_decode (bytes_at u 4)),
     advance u 4).
Proof.
  intros Hpos. rewrite unpack_uint_run by assumption. unfold remaining, advance.
  destruct (Z.ltb_spec (len (Unpacker.buf u)) (Unpacker.pos u + 4));
    destruct (Z.ltb_spec (len (Unpacker.buf u) - Unpacker.pos u) 4);
    try lia; reflexivity.
Qed.

Lemma unpack_int_bytes (u : Unpacker.t) :
  0 <= Unpacker.pos u ->
  Unpacker.unpack_int u
  = (if remaining u <? 4 then Raise EOFError else Return (struct_unpack_l (bytes_at u 4)),
     advance u 4).
Proof.
  intros Hpos. rewrite unpack_int_run by assumption. unfold remaining, advance.
  destruct (Z.ltb_spec (len (Unpacker.buf u)) (Unpacker.pos u + 4));
    destruct (Z.ltb_spec (len (Unpacker.buf u) - Unpacker.pos u) 4);
    try lia; reflexivity.
Qed.

Lemma unpack_uhyper_bytes (u : Unpacker.t) :
  0 <= Unpacker.pos u ->
  Unpacker.unpack_uhyper u
  = (if remaining u <? 8 then Raise EOFError else Return (be_decode (bytes_at u 8)),
     if remaining u <? 4 then advance u 4 else advance u 8).
Proof.
  intros Hpos. unfold Unpacker.unpack_uhyper, bind.
  rewrite unpack_uint_bytes by assumption.
  destruct (Z.ltb_spec (remaining u) 4) as [H4 | H4].
  - destruct (Z.ltb_spec (remaining u) 8); [reflexivity | lia].
  - rewrite unpack_uint_bytes by (cbn; lia).
    replace (remaining (advance u 4)) with (remaining u - 4)
      by (unfold remaining, advance; cbn; lia).
    replace (advance (advance u 4) 4) with (advance u 8)
      by (unfold advance; cbn; f_equal; lia).
    destruct (Z.ltb_spec (remaining u - 4) 4); destruct (Z.ltb_spec (remaining u) 8);
      try lia; [reflexivity|].
    unfold ret. f_equal. f_equal.
    pose proof (be_decode_range (bytes_at (advance u 4) 4)) as Hlo.
    rewrite len_bytes_at in Hlo by (unfold remaining, advance in *; cbn in *; lia).
    rewrite lor_halves by exact Hlo.
    change 8%nat with (4 + 4)%nat. rewrite bytes_at_plus by assumption.
    rewrite be_decode_app, len_bytes_at
      by (unfold remaining, advance in *; cbn in *; lia).
    reflexivity.
Qed.

Lemma unpack_hyper_bytes (u : Unpacker.t) :
  0 <= Unpacker.pos u ->
  Unpacker.unpack_hyper u
  = (if remaining u <? 8 then Raise EOFError
     else Return (signed64 (be_decode (bytes_at u 8))),
     if remaining u <? 4 then advance u 4 else advance u 8).
Proof.
  intros Hpos. unfold Unpacker.unpack_hyper, bind.
  rewrite unpack_uhyper_bytes by assumption.
  destruct (Z.ltb_spec (remaining u) 8) as [H8 | H8]; [reflexivity|].
  destruct (Z.ltb_spec (remaining u) 4); [lia|].
  pose proof (be_decode_range (bytes_at u 8)) as Hv.
  rewrite len_bytes_at in Hv by (cbn; lia).
  change (256 ^ Z.of_nat 8) with 18446744073709551616 in Hv.
  set (v := be_decode (bytes_at u 8)) in *.
  unfold signed64. change (2 ^ 63) with 9223372036854775808.
  change (2 ^ 64) with 18446744073709551616.
  destruct (Z.leb_spec 9223372036854775808 v).
  - replace ((v + 9223372036854775808) mod 18446744073709551616)
      with (v - 9223372036854775808)
      by (apply (Z.mod_unique _ 18446744073709551616 1); lia).
    unfold ret. do 2 f_equal. lia.
  - rewrite Z.mod_small by lia. unfold ret. do 2 f_equal. lia.
Qed.

(** The four fixed-size readers raise [EOFError] exactly when fewer bytes
    remain past the cursor than they need (4, 4, 4 and 8), return otherwise,
    and in both cases leave the cursor advanced by that size. *)
Theorem fixed_size_readers (u : Unpacker.t) :
  0 <= Unpacker.pos u ->
  (remaining u < 4 ->
   Unpacker.unpack_uint u = (Raise EOFError, advance u 4)
   /\ Unpacker.unpack_int u = (Raise EOFError, advance u 4)
   /\ Unpacker.unpack_float u = (Raise EOFError, advance u 4))
  /\ (remaining u < 8 -> Unpacker.unpack_double u = (Raise EOFError, advance u 8))
  /\ (4 <= remaining u ->
      Unpacker.unpack_uint u = (Return (struct_unpack_L (bytes_at u 4)), advance u 4)
      /\ Unpacker.unpack_int u = (Return (struct_unpack_l (bytes_at u 4)), advance u 4)
      /\ Unpacker.unpack_float u = (Return (struct_unpack_f (bytes_at u 4)), advance u 4))
  /\ (8 <= remaining u ->
      Unpacker.unpack_double u = (Return (struct_unpack_d (bytes_at u 8)), advance u 8)).
Proof.
  intros Hpos.
  rewrite unpack_uint_run, unpack_int_run, unpack_float_run, unpack_double_run
    by assumption.
  unfold remaining, advance, bytes_at.
  split; [|split; [|split]]; intros Hrem.
  - destruct (Z.ltb_spec (len (Unpacker.buf u)) (Unpacker.pos u + 4)); [|lia].
    split; [reflexivity | split; reflexivity].
  - destruct (Z.ltb_spec (len (Unpacker.buf u)) (Unpacker.pos u + 8)); [|lia].
    reflexivity.
  - destruct (Z.ltb_spec (len (Unpacker.buf u)) (Unpacker.pos u + 4)); [lia|].
    split; [reflexivity | split; reflexivity].
  - destruct (Z.ltb_spec (len (Unpacker.buf u)) (Unpacker.pos u + 8)); [lia|].
    reflexivity.
Qed.

Lemma fixed_size_readers_witness :
  0 <= 0
  /\ Unpacker.unpack_int (Unpacker.init [xff; xff; xff; xfe; x07])
     = (Return (-2), Unpacker.mk [xff; xff; xff; xfe; x07] 4)
  /\ Unpacker.unpack_double (Unpacker.init [xff; xff; xff; xfe; x07])
     = (Raise EOFError, Unpacker.mk [xff; xff; xff; xfe; x07] 8).
Proof.
  pose proof (@fixed_size_readers (Unpacker.init [xff; xff; xff; xfe; x07])
                ltac:(cbn; lia)) as (_ & H8 & H4 & _).
  split; [lia | split].
  - exact (proj1 (proj2 (H4 ltac:(vm_compute; discriminate)))).
  - exact (H8 ltac:(vm_compute; reflexivity)).
Defined.

Lemma struct_unpack_l_range (data : list byte) :
  len data = 4 ->
  - 2 ^ 31 <= struct_unpack_l data < 2 ^ 31
  /\ be_decode data = struct_unpack_l data mod 2 ^ 32.
Proof.
  intros Hlen. pose proof (be_decode_range data) as Hv. rewrite Hlen in Hv.
  change (256 ^ 4) with 4294967296 in Hv. unfold struct_unpack_l.
  change (2 ^ 31) with 2147483648. change (2 ^ 32) with 4294967296.
  destruct (Z.ltb_spec (be_decode data) 2147483648).
  - rewrite Z.mod_small by lia. lia.
  - split; [lia|].
    apply (Z.mod_unique _ 4294967296 (-1)); lia.
Qed.

(** Whatever the bytes are, a decoded word lies in the range of its type:
    [unpack_uint] in [0, 2^32), [unpack_int] in [-2^31, 2^31),
    [unpack_uhyper] in [0, 2^64) and [unpack_hyper] in [-2^63, 2^63); the
    signed reading of a word is congruent to its unsigned reading. *)
Theorem unpacked_word_ranges (u : Unpacker.t) :
  0 <= Unpacker.pos u ->
  (forall v u', Unpacker.unpack_uint u = (Return v, u') -> 0 <= v < 2 ^ 32)
  /\ (forall w u', Unpacker.unpack_int u = (Return w, u') ->
        - 2 ^ 31 <= w < 2 ^ 31
        /\ Unpacker.unpack_uint u = (Return (w mod 2 ^ 32), u'))
  /\ (forall v u', Unpacker.unpack_uhyper u = (Return v, u') -> 0 <= v < 2 ^ 64)
  /\ (forall w u', Unpacker.unpack_hyper u = (Return w, u') ->
        - 2 ^ 63 <= w < 2 ^ 63
        /\ Unpacker.unpack_uhyper u = (Return (w mod 2 ^ 64), u')).
Proof.
  intros Hpos.
  rewrite unpack_uint_bytes, unpack_int_bytes, unpack_uhyper_bytes, unpack_hyper_bytes
    by assumption.
  split; [|split; [|split]].
  - intros v u'. destruct (Z.ltb_spec (remaining u) 4); [discriminate|].
    intros [= <- _]. pose proof (be_decode_range (bytes_at u 4)) as Hv.
    rewrite len_bytes_at in Hv by (cbn; lia). exact Hv.
  - intros w u'. destruct (Z.ltb_spec (remaining u) 4); [discriminate|].
    intros [= <- <-].
    destruct (@struct_unpack_l_range (bytes_at u 4)) as [Hr Hm].
    { apply len_bytes_at; cbn; lia. }
    split; [exact Hr | now rewrite Hm].
  - intros v u'. destruct (Z.ltb_spec (remaining u) 8); [discriminate|].
    intros [= <- _]. pose proof (be_decode_range (bytes_at u 8)) as Hv.
    rewrite len_bytes_at in Hv by (cbn; lia). exact Hv.
  - intros w u'. destruct (Z.ltb_spec (remaining u) 8); [discriminate|].
    intros [= <- <-].
    pose proof (be_decode_range (bytes_at u 8)) as Hv.
    rewrite len_bytes_at in Hv by (cbn; lia).
    change (256 ^ Z.of_nat 8) with (2 ^ 64) in Hv.
    set (v := be_decode (bytes_at u 8)) in *.
    assert (Hs : - 2 ^ 63 <= signed64 v < 2 ^ 63 /\ signed64 v mod 2 ^ 64 = v).
    { unfold signed64.
      pose proof (Z.mod_pos_bound (v + 2 ^ 63) (2 ^ 64) ltac:(lia)) as Hb.
      split; [lia|].
      rewrite Zminus_mod_idemp_l.
      replace (v + 2 ^ 63 - 2 ^ 63) with v by lia. apply Z.mod_small. exact Hv. }
    destruct Hs as [Hr Hm]. split; [exact Hr | now rewrite Hm].
Qed.

Lemma unpacked_word_ranges_witness :
  0 <= 0
  /\ - 2 ^ 31 <= -2 < 2 ^ 31
  /\ Unpacker.unpack_uint (Unpacker.init [xff; xff; xff; xfe])
     = (Return (-2 mod 2 ^ 32), Unpacker.mk [xff; xff; xff; xfe] 4).
Proof.
  pose proof (@unpacked_word_ranges (Unpacker.init [xff; xff; xff; xfe])
                ltac:(cbn; lia)) as (_ & Hint & _).
  split; [lia|].
  exact (Hint (-2) (Unpacker.mk [xff; xff; xff; xfe] 4) ltac:(vm_compute; reflexivity)).
Defined.

Lemma be_encode_decode_len (n : nat) (data : list byte) :
  len data = Z.of_nat n -> be_encode n (be_decode data) = data.
Proof.
  unfold len. intros Hlen. apply Nat2Z.inj in Hlen. subst n. apply be_encode_decode.
Qed.

Lemma pack_uhyper_bytes (x : Z) (p : Packer.t) :
  Packer.pack_uhyper x p = (Return tt, Packer.mk (Packer.buf p ++ be_encode 8 x)).
Proof.
  rewrite pack_uhyper_halves, be_encode_halves.
  change (2 ^ 64) with (256 ^ Z.of_nat 8). now rewrite be_encode_mod.
Qed.

(** Decoding a word and packing the value again writes the very bytes that
    were read: every 4-byte string is the encoding of exactly one uint and one
    int, and every 8-byte string of exactly one uhyper and one hyper. *)
Theorem unpack_then_pack (u u' : Unpacker.t) (p : Packer.t) :
  0 <= Unpacker.pos u ->
  (forall v, Unpacker.unpack_uint u = (Return v, u') ->
     Packer.pack_uint v p = (Return tt, Packer.mk (Packer.buf p ++ bytes_at u 4)))
  /\ (forall v, Unpacker.unpack_int u = (Return v, u') ->
        Packer.pack_int v p = (Return tt, Packer.mk (Packer.buf p ++ bytes_at u 4)))
  /\ (forall v, Unpacker.unpack_uhyper u = (Return v, u') ->
        Packer.pack_uhyper v p = (Return tt, Packer.mk (Packer.buf p ++ bytes_at u 8)))
  /\ (forall v, Unpacker.unpack_hyper u = (Return v, u') ->
        Packer.pack_hyper v p = (Return tt, Packer.mk (Packer.buf p ++ bytes_at u 8))).
Proof.
  intros Hpos.
  rewrite unpack_uint_bytes, unpack_int_bytes, unpack_uhyper_bytes, unpack_hyper_bytes
    by assumption.
  split; [|split; [|split]]; intros v.
  - destruct (Z.ltb_spec (remaining u) 4); [discriminate|]. intros [= <- _].
    assert (Hlen : len (bytes_at u 4) = Z.of_nat 4) by (apply len_bytes_at; cbn; lia).
    pose proof (be_decode_range (bytes_at u 4)) as Hv. rewrite Hlen in Hv.
    rewrite pack_uint_ok by exact Hv. now rewrite be_encode_decode_len.
  - destruct (Z.ltb_spec (remaining u) 4); [discriminate|]. intros [= <- _].
    assert (Hlen : len (bytes_at u 4) = Z.of_nat 4) by (apply len_bytes_at; cbn; lia).
    destruct (@struct_unpack_l_range (bytes_at u 4) Hlen) as [Hr Hm].
    rewrite pack_int_ok by exact Hr.
    rewrite <- (be_encode_mod 4 (struct_unpack_l (bytes_at u 4))).
    change (256 ^ Z.of_nat 4) with (2 ^ 32). rewrite <- Hm.
    now rewrite be_encode_decode_len.
  - destruct (Z.ltb_spec (remaining u) 8); [discriminate|]. intros [= <- _].
    rewrite pack_uhyper_bytes.
    now rewrite be_encode_decode_len by (apply len_bytes_at; cbn; lia).
  - destruct (Z.ltb_spec (remaining u) 8); [discriminate|]. intros [= <- _].
    unfold Packer.pack_hyper. rewrite pack_uhyper_bytes.
    assert (Hlen : len (bytes_at u 8) = Z.of_nat 8) by (apply len_bytes_at; cbn; lia).
    pose proof (be_decode_range (bytes_at u 8)) as Hv. rewrite Hlen in Hv.
    rewrite <- (be_encode_mod 8 (signed64 (be_decode (bytes_at u 8)))).
    unfold signed64. change (256 ^ Z.of_nat 8) with (2 ^ 64) in *.
    rewrite Zminus_mod_idemp_l.
    replace (be_decode (bytes_at u 8) + 2 ^ 63 - 2 ^ 63)
      with (be_decode (bytes_at u 8)) by lia.
    rewrite Z.mod_small by exact Hv.
    now rewrite be_encode_decode_len.
Qed.

Lemma unpack_then_pack_witness :
  0 <= 0
  /\ Packer.pack_int (-2) Packer.init = (Return tt, Packer.mk [xff; xff; xff; xfe]).
Proof.
  split; [lia|].
  exact (proj1 (proj2 (@unpack_then_pack (Unpacker.init [xff; xff; xff; xfe; x07])
                         (Unpacker.mk [xff; xff; xff; xfe; x07] 4) Packer.init
                         ltac:(cbn; lia)))
           (-2) ltac:(vm_compute; reflexivity)).
Defined.

Lemma be_decode_zero (data : list byte) :
  be_decode data = 0 <-> data = repeat x00 (List.length data).
Proof.
  split; intros H.
  - rewrite <- (be_encode_decode data) at 1. rewrite H.
    generalize (List.length data) as n. induction n as [|n IH]; [reflexivity|].
    cbn [be_encode repeat]. rewrite IH, Z.shiftr_0_l. reflexivity.
  - rewrite H. generalize (List.length data) as n.
    induction n as [|n IH]; [reflexivity|].
    cbn [repeat]. rewrite be_decode_cons, IH. reflexivity.
Qed.

(** [unpack_bool] does not insist on the two encodings [pack_bool] writes: it
    returns [False] for the word of four zero bytes and [True] for every other
    word. *)
Theorem unpack_bool_any_nonzero (u : Unpacker.t) :
  0 <= Unpacker.pos u -> 4 <= remaining u ->
  exists b,
    Unpacker.unpack_bool u = (Return b, advance u 4)
    /\ (b = false <-> bytes_at u 4 = [x00; x00; x00; x00]).
Proof.
  intros Hpos Hrem. unfold Unpacker.unpack_bool, bind.
  rewrite unpack_int_bytes by assumption.
  destruct (Z.ltb_spec (remaining u) 4); [lia|].
  eexists. split; [reflexivity|].
  assert (Hlen : len (bytes_at u 4) = Z.of_nat 4) by (apply len_bytes_at; cbn; lia).
  destruct (@struct_unpack_l_range (bytes_at u 4) Hlen) as [Hr Hm].
  assert (Hzero : struct_unpack_l (bytes_at u 4) = 0 <-> be_decode (bytes_at u 4) = 0).
  { rewrite Hm. change (2 ^ 31) with 2147483648 in Hr. change (2 ^ 32) with 4294967296.
    split; intros H0.
    - now rewrite H0.
    - destruct (Z.le_gt_cases 0 (struct_unpack_l (bytes_at u 4))).
      + rewrite Z.mod_small in H0 by lia. exact H0.
      + rewrite <- (Z.mod_unique _ 4294967296 (-1)
                   (struct_unpack_l (bytes_at u 4) + 4294967296)) in H0 by lia.
        lia. }
  rewrite negb_false_iff, Z.eqb_eq, Hzero, be_decode_zero.
  unfold len in Hlen. apply Nat2Z.inj in Hlen. rewrite Hlen. reflexivity.
Qed.

Lemma unpack_bool_any_nonzero_witness :
  0 <= 0 /\ 4 <= 4
  /\ Unpacker.unpack_bool (Unpacker.init [x00; x00; x02; x00])
     = (Return true, Unpacker.mk [x00; x00; x02; x00] 4).
Proof.
  split; [lia | split; [lia|]].
  destruct (@unpack_bool_any_nonzero (Unpacker.init [x00; x00; x02; x00])
              ltac:(cbn; lia) ltac:(vm_compute; discriminate)) as (b & Hrun & Hb).
  destruct b; [exact Hrun|].
  destruct Hb as [Hb _]. specialize (Hb eq_refl). discriminate Hb.
Defined.

Lemma bytes_at_init (data : list byte) :
  bytes_at (Unpacker.init data) (List.length data) = data.
Proof.
  unfold bytes_at, Unpacker.init. cbn. apply firstn_all.
Qed.

(** [pack_hyper] and [pack_uhyper] accept every integer, and an integer
    outside the 64-bit range comes back wrapped: [unpack_uhyper] returns
    [x mod 2^64] and [unpack_hyper] the two's-complement reading of it, which
    is [x] exactly when [-2^63 <= x < 2^63]. *)
Theorem hyper_wraps_out_of_range (x : Z) :
  exists data,
    Packer.pack_hyper x Packer.init = (Return tt, Packer.mk data)
    /\ Unpacker.unpack_uhyper (Unpacker.init data)
       = (Return (x mod 2 ^ 64), Unpacker.mk data 8)
    /\ Unpacker.unpack_hyper (Unpacker.init data)
       = (Return (signed64 x), Unpacker.mk data 8)
    /\ (signed64 x = x <-> - 2 ^ 63 <= x < 2 ^ 63).
Proof.
  exists (be_encode 8 x).
  assert (Hbytes : bytes_at (Unpacker.init (be_encode 8 x)) 8 = be_encode 8 x).
  { rewrite <- (length_be_encode 8 x) at 2. apply bytes_at_init. }
  assert (Hrem : remaining (Unpacker.init (be_encode 8 x)) = 8).
  { unfold remaining. cbn [Unpacker.init Unpacker.buf Unpacker.pos].
    rewrite len_be_encode. reflexivity. }
  split; [|split; [|split]].
  - unfold Packer.pack_hyper. now rewrite pack_uhyper_bytes.
  - rewrite unpack_uhyper_bytes by (cbn; lia). rewrite Hrem, Hbytes.
    rewrite be_decode_encode. reflexivity.
  - rewrite unpack_hyper_bytes by (cbn; lia). rewrite Hrem, Hbytes.
    rewrite be_decode_encode. change (256 ^ Z.of_nat 8) with (2 ^ 64).
    unfold signed64. now rewrite Zplus_mod_idemp_l.
  - unfold signed64.
    pose proof (Z.mod_pos_bound (x + 2 ^ 63) (2 ^ 64) ltac:(lia)) as Hb.
    split; intros H.
    + lia.
    + rewrite Z.mod_small by lia. lia.
Qed.

Lemma pack_int_range_error (x : Z) (p : Packer.t) :
  ~ - 2 ^ 31 <= x < 2 ^ 31 ->
  exists msg, Packer.pack_int x p = (Raise (ConversionError msg), p).
Proof.
  intros Hx. unfold Packer.pack_int, struct_pack_l, Packer.write. unfold_monad.
  destruct (Z.leb_spec (-2147483648) x); destruct (Z.leb_spec x 2147483647);
    try lia; cbn; eauto.
Qed.

(** [pack_uint] and [pack_int] check the range before they write: a value
    outside [0, 2^32), respectively [-2^31, 2^31), raises [ConversionError]
    (the [struct.error] is translated) and leaves the buffer as it was; a value
    inside appends its four big-endian bytes. *)
Theorem pack_word_range_check (x : Z) (p : Packer.t) :
  (0 <= x < 2 ^ 32 ->
   Packer.pack_uint x p = (Return tt, Packer.mk (Packer.buf p ++ be_encode 4 x)))
  /\ (~ 0 <= x < 2 ^ 32 ->
      exists msg, Packer.pack_uint x p = (Raise (ConversionError msg), p))
  /\ (- 2 ^ 31 <= x < 2 ^ 31 ->
      Packer.pack_int x p = (Return tt, Packer.mk (Packer.buf p ++ be_encode 4 x)))
  /\ (~ - 2 ^ 31 <= x < 2 ^ 31 ->
      exists msg, Packer.pack_int x p = (Raise (ConversionError msg), p))
  /\ len (be_encode 4 x) = 4.
Proof.
  split; [apply pack_uint_ok|].
  split; [apply pack_uint_range_error|].
  split; [apply pack_int_ok|].
  split; [apply pack_int_range_error | apply len_be_encode].
Qed.

Lemma pack_word_range_check_witness :
  (exists msg, Packer.pack_uint (-1) (Packer.mk [x07])
               = (Raise (ConversionError msg), Packer.mk [x07]))
  /\ Packer.pack_int (-1) (Packer.mk [x07])
     = (Return tt, Packer.mk [x07; xff; xff; xff; xff])
  /\ (exists msg, Packer.pack_int 2147483648 (Packer.mk [x07])
                  = (Raise (ConversionError msg), Packer.mk [x07]))
  /\ Packer.pack_uint 2147483648 (Packer.mk [x07])
     = (Return tt, Packer.mk [x07; x80; x00; x00; x00]).
Proof.
  pose proof (pack_word_range_check (-1) (Packer.mk [x07])) as (_ & Hu & Hi & _).
  pose proof (pack_word_range_check 2147483648 (Packer.mk [x07])) as (Hu' & _ & _ & Hi' & _).
  split; [apply Hu; lia|].
  split; [apply Hi; lia|].
  split; [apply Hi'; lia | apply Hu'; lia].
Defined.

(** ** The Packer only appends whole words *)

Lemma appends_ret : appends_words (ret tt).
Proof.
  intros p r p' [= _ <-]. exists []. now rewrite app_nil_r.
Qed.

Lemma appends_raise (e : exn) : appends_words (raise e).
Proof.
  intros p r p' [= _ <-]. exists []. now rewrite app_nil_r.
Qed.

Lemma appends_write (data : list byte) :
  len data mod 4 = 0 -> appends_words (Packer.write data).
Proof.
  intros Hlen p r p' [= _ <-]. exists data. now split.
Qed.

Lemma appends_seq (c1 c2 : M Packer.t unit) :
  appends_words c1 -> appends_words c2 -> appends_words (c1 ;; c2).
Proof.
  intros H1 H2 p r p'. unfold bind.
  destruct (c1 p) as [[[]|e] p1] eqn:E1.
  - intros E2.
    destruct (H1 _ _ _ E1) as (s1 & Hb1 & Hs1).
    destruct (H2 _ _ _ E2) as (s2 & Hb2 & Hs2).
    exists (s1 ++ s2). split.
    + now rewrite Hb2, Hb1, app_assoc.
    + rewrite len_app, Z.add_mod, Hs1, Hs2 by lia. reflexivity.
  - intros [= <- <-]. exact (H1 _ _ _ E1).
Qed.

Lemma appends_for_each {T} (f : T -> M Packer.t unit) (l : list T) :
  (forall x, appends_words (f x)) -> appends_words (for_each l f).
Proof.
  intros Hf. induction l as [|x l IH]; cbn [for_each].
  - apply appends_ret.
  - now apply appends_seq.
Qed.

(** A method wrapped by [raise_conversion_error] around "pack, then write". *)
Lemma appends_packed {V} (pack : V -> exn + list byte) (x : V) :
  (forall data, pack x = inr data -> len data mod 4 = 0) ->
  appends_words
    (raise_conversion_error (fun x => data <- lift (pack x) ;; Packer.write data) x).
Proof.
  intros Hpack p r p'. unfold raise_conversion_error, try_except, bind, lift.
  destruct (pack x) as [e | data] eqn:E.
  - unfold raise. destruct e; intros [= _ <-]; exists []; now rewrite app_nil_r.
  - unfold ret. intros H. exact (appends_write (Hpack data eq_refl) H).
Qed.

Lemma appends_pack_uint (x : Z) : appends_words (Packer.pack_uint x).
Proof.
  apply appends_packed. unfold struct_pack_L. intros data.
  destruct ((0 <=? x) && (x <=? 4294967295)); [|discriminate].
  intros [= <-]. reflexivity.
Qed.

Lemma appends_pack_int (x : Z) : appends_words (Packer.pack_int x).
Proof.
  apply appends_packed. unfold struct_pack_l. intros data.
  destruct ((-2147483648 <=? x) && (x <=? 2147483647)); [|discriminate].
  intros [= <-]. reflexivity.
Qed.

Lemma appends_pack_float (x : spec_float) : appends_words (Packer.pack_float x).
Proof.
  apply appends_packed. unfold struct_pack_f. intros data.
  destruct (is_infinity (double_to_single x) && negb (is_infinity x)); [discriminate|].
  intros [= <-]. reflexivity.
Qed.

Lemma appends_pack_double (x : spec_float) : appends_words (Packer.pack_double x).
Proof.
  apply appends_packed. unfold struct_pack_d. intros data [= <-].
  reflexivity.
Qed.

Lemma appends_pack_bool (x : bool) : appends_words (Packer.pack_bool x).
Proof.
  destruct x; apply appends_write; reflexivity.
Qed.

Lemma appends_pack_uhyper (x : Z) : appends_words (Packer.pack_uhyper x).
Proof.
  intros p r p'. rewrite pack_uhyper_bytes. intros [= _ <-].
  exists (be_encode 8 x). split; [reflexivity | now rewrite len_be_encode].
Qed.

Lemma pack_fstring_run (n : Z) (s : list byte) (p : Packer.t) :
  0 <= n ->
  Packer.pack_fstring n s p = (Return tt, Packer.mk (Packer.buf p ++ fstring_wire n s))
  /\ len (fstring_wire n s) = (n + 3) / 4 * 4.
Proof.
  intros Hn. pose proof (aligned_bounds n) as [Ha _]. pose proof (len_nonneg s) as Hs.
  split.
  - unfold Packer.pack_fstring. destruct (Z.ltb_spec n 0); [lia|].
    unfold Packer.write, bind, get, put. do 3 f_equal.
    unfold fstring_wire. rewrite py_slice_prefix, len_firstn by lia.
    rewrite <- app_assoc. f_equal.
    destruct (Z.le_ge_cases n (len s)).
    + rewrite Z.min_l, (zeros_nonpos (k := n - len s)) by lia. reflexivity.
    + rewrite Z.min_r by lia. rewrite <- zeros_app by lia. f_equal. lia.
  - unfold fstring_wire. rewrite !len_app, len_firstn, !len_zeros by lia. lia.
Qed.

Lemma appends_pack_fstring (n : Z) (s : list byte) : appends_words (Packer.pack_fstring n s).
Proof.
  destruct (Z.lt_ge_cases n 0) as [Hn | Hn].
  - unfold Packer.pack_fstring. destruct (Z.ltb_spec n 0); [|lia]. apply appends_raise.
  - intros p r p'. destruct (@pack_fstring_run n s p Hn) as [-> Hlen].
    intros [= _ <-]. exists (fstring_wire n s). split; [reflexivity|].
    rewrite Hlen. apply (aligned_bounds n).
Qed.

(** The Packer is append-only and word-aligned: every packing method,
    whether it returns or raises, keeps the bytes written before it and
    appends a multiple of four bytes; so do the array and list methods when
    the item packer does. *)
Theorem packer_appends_words :
  (forall x, appends_words (Packer.pack_uint x))
  /\ (forall x, appends_words (Packer.pack_int x))
  /\ (forall x, appends_words (Packer.pack_bool x))
  /\ (forall x, appends_words (Packer.pack_uhyper x))
  /\ (forall x, appends_words (Packer.pack_float x))
  /\ (forall x, appends_words (Packer.pack_double x))
  /\ (forall n s, appends_words (Packer.pack_fstring n s))
  /\ (forall s, appends_words (Packer.pack_string s))
  /\ (forall (T : Type) (pack_item : T -> M Packer.t unit),
        (forall x, appends_words (pack_item x)) ->
        forall items n,
          appends_words (Packer.pack_list items pack_item)
          /\ appends_words (Packer.pack_farray n items pack_item)
          /\ appends_words (Packer.pack_array items pack_item)).
Proof.
  split; [exact appends_pack_uint|].
  split; [exact appends_pack_int|].
  split; [exact appends_pack_bool|].
  split; [exact appends_pack_uhyper|].
  split; [exact appends_pack_float|].
  split; [exact appends_pack_double|].
  split; [exact appends_pack_fstring|].
  split.
  - intros s. unfold Packer.pack_string.
    apply appends_seq; [apply appends_pack_uint | apply appends_pack_fstring].
  - intros T pack_item Hitem items n.
    assert (Hfarray : forall k, appends_words (Packer.pack_farray k items pack_item)).
    { intros k. unfold Packer.pack_farray.
      destruct (negb (len items =? k)); [apply appends_raise|].
      now apply appends_for_each. }
    split; [|split; [apply Hfarray|]].
    + unfold Packer.pack_list. apply appends_seq; [|apply appends_pack_uint].
      apply appends_for_each. intros x.
      apply appends_seq; [apply appends_pack_uint | apply Hitem].
    + unfold Packer.pack_array. apply appends_seq; [apply appends_pack_uint | apply Hfarray].
Qed.

Lemma packer_appends_words_witness :
  appends_words (Packer.pack_list [1; 4294967296] Packer.pack_int)
  /\ appends_words (Packer.pack_farray 2 [1; 4294967296] Packer.pack_int)
  /\ appends_words (Packer.pack_array [1; 4294967296] Packer.pack_int).
Proof.
  destruct packer_appends_words as (_ & Hint & _ & _ & _ & _ & _ & _ & Hitems).
  exact (Hitems Z Packer.pack_int Hint [1; 4294967296] 2).
Defined.

(** ** Opaque data and strings *)

Lemma unpack_fstring_run (n : Z) (u : Unpacker.t) :
  0 <= Unpacker.pos u -> 0 <= n ->
  Unpacker.unpack_fstring n u
  = if remaining u <? (n + 3) / 4 * 4 then (Raise EOFError, u)
    else (Return (bytes_at u (Z.to_nat n)), advance u ((n + 3) / 4 * 4)).
Proof.
  intros Hpos Hn. destruct u as [b i]. cbn [Unpacker.pos] in Hpos.
  pose proof (aligned_bounds n) as [Ha _].
  unfold Unpacker.unpack_fstring, Unpacker.get_position, Unpacker.get_buffer,
    Unpacker.set_position, bind, get, put, ret, raise, remaining, advance, bytes_at.
  cbn [Unpacker.pos Unpacker.buf].
  destruct (Z.ltb_spec n 0); [lia|]. cbn [Unpacker.pos Unpacker.buf].
  destruct (Z.ltb_spec (len b) (i + (n + 3) / 4 * 4));
    destruct (Z.ltb_spec (len b - i) ((n + 3) / 4 * 4)); try lia; [reflexivity|].
  cbn [Unpacker.pos Unpacker.buf]. now rewrite py_slice_inside by lia.
Qed.

Lemma bytes_at_frame (pre w post : list byte) (k : nat) :
  (k <= List.length w)%nat ->
  bytes_at (Unpacker.mk (pre ++ w ++ post) (len pre)) k = firstn k w.
Proof.
  intros Hk. unfold bytes_at. cbn [Unpacker.pos Unpacker.buf].
  rewrite skipn_len_app, firstn_app.
  replace (k - List.length w)%nat with 0%nat by lia.
  cbn [firstn]. apply app_nil_r.
Qed.

Lemma remaining_frame (pre rest : list byte) :
  remaining (Unpacker.mk (pre ++ rest) (len pre)) = len rest.
Proof.
  unfold remaining. cbn [Unpacker.pos Unpacker.buf]. rewrite len_app. lia.
Qed.

Lemma fstring_body (n : Z) (s : list byte) :
  0 <= n ->
  firstn (Z.to_nat n) (fstring_wire n s) = firstn (Z.to_nat n) s ++ zeros (n - len s)
  /\ len (firstn (Z.to_nat n) s ++ zeros (n - len s)) = n.
Proof.
  intros Hn.
  assert (Hlen : len (firstn (Z.to_nat n) s ++ zeros (n - len s)) = n).
  { rewrite len_app, len_firstn, len_zeros by lia. lia. }
  split; [|exact Hlen].
  assert (Hnat : List.length (firstn (Z.to_nat n) s ++ zeros (n - len s)) = Z.to_nat n).
  { apply Nat2Z.inj. rewrite Z2Nat.id by lia. exact Hlen. }
  unfold fstring_wire. cbv zeta. rewrite firstn_app, Hnat, Nat.sub_diag.
  cbn [firstn]. rewrite app_nil_r. apply firstn_all2. rewrite Hnat. lia.
Qed.

Lemma unpack_fstring_frame (n : Z) (s pre post : list byte) :
  0 <= n ->
  Unpacker.unpack_fstring n (Unpacker.mk (pre ++ fstring_wire n s ++ post) (len pre))
  = (Return (firstn (Z.to_nat n) s ++ zeros (n - len s)),
     Unpacker.mk (pre ++ fstring_wire n s ++ post) (len pre + (n + 3) / 4 * 4)).
Proof.
  intros Hn. destruct (@pack_fstring_run n s (Packer.mk []) Hn) as [_ Hlen].
  destruct (@fstring_body n s Hn) as [Hbody _].
  rewrite unpack_fstring_run by (cbn; try apply len_nonneg; lia).
  rewrite remaining_frame, len_app, Hlen.
  pose proof (len_nonneg post).
  destruct (Z.ltb_spec ((n + 3) / 4 * 4 + len post) ((n + 3) / 4 * 4)); [lia|].
  rewrite bytes_at_frame
    by (pose proof (aligned_bounds n) as [Hal _]; rewrite <- Hlen in Hal;
        unfold len in Hal; lia).
  now rewrite Hbody.
Qed.

(** Fixed-length opaque data round-trips in place: after [pack_fstring n s],
    an Unpacker whose cursor stands where the Packer's buffer ended before the
    call reads back, with [unpack_fstring n], the first [n] bytes of [s]
    zero-padded to length [n] (which is [s] itself when [len(s) == n]), and
    stops exactly where the packed bytes end, whatever bytes follow. *)
Theorem fstring_roundtrip (n : Z) (s : list byte) (p : Packer.t) (post : list byte) :
  0 <= n ->
  exists data,
    Packer.pack_fstring n s p = (Return tt, Packer.mk data)
    /\ Unpacker.unpack_fstring n (Unpacker.mk (data ++ post) (len (Packer.buf p)))
       = (Return (firstn (Z.to_nat n) s ++ zeros (n - len s)),
          Unpacker.mk (data ++ post) (len data))
    /\ (len s = n -> firstn (Z.to_nat n) s ++ zeros (n - len s) = s).
Proof.
  intros Hn. destruct (@pack_fstring_run n s p Hn) as [Hpack Hlen].
  exists (Packer.buf p ++ fstring_wire n s). split; [exact Hpack | split].
  - rewrite <- app_assoc, unpack_fstring_frame by exact Hn.
    now rewrite len_app, Hlen.
  - intros Hs. unfold len in Hs.
    rewrite <- Hs, Nat2Z.id, firstn_all, zeros_nonpos by (unfold len; lia).
    apply app_nil_r.
Qed.

Lemma fstring_roundtrip_witness :
  0 <= 3
  /\ exists data,
       Packer.pack_fstring 3 [x61; x62] (Packer.mk [x07; x07; x07; x07])
       = (Return tt, Packer.mk data)
       /\ Unpacker.unpack_fstring 3 (Unpacker.mk (data ++ [x63]) 4)
          = (Return [x61; x62; x00], Unpacker.mk (data ++ [x63]) (len data)).
Proof.
  split; [lia|].
  destruct (@fstring_roundtrip 3 [x61; x62] (Packer.mk [x07; x07; x07; x07]) [x63]
              ltac:(lia)) as (data & Hp & Hu & _).
  exists data. split; [exact Hp | exact Hu].
Defined.

Lemma string_wire_fstring (s : list byte) :
  string_wire s = be_encode 4 (len s) ++ fstring_wire (len s) s.
Proof.
  unfold string_wire, fstring_wire, len. cbv zeta.
  rewrite Nat2Z.id, firstn_all, Z.sub_diag. cbn [zeros Z.to_nat repeat].
  now rewrite app_nil_r.
Qed.

Lemma pack_string_run (s : list byte) (p : Packer.t) :
  len s < 2 ^ 32 ->
  Packer.pack_string s p = (Return tt, Packer.mk (Packer.buf p ++ string_wire s))
  /\ len (string_wire s) = 4 + (len s + 3) / 4 * 4.
Proof.
  intros Hlen. pose proof (len_nonneg s) as Hs.
  destruct (@pack_fstring_run (len s) s (Packer.mk (Packer.buf p ++ be_encode 4 (len s))) Hs)
    as [Hpack Hwire].
  split.
  - unfold Packer.pack_string, bind. rewrite pack_uint_ok by lia.
    rewrite Hpack. cbn [Packer.buf].
    now rewrite string_wire_fstring, <- app_assoc.
  - rewrite string_wire_fstring, len_app, len_be_encode, Hwire. lia.
Qed.

Lemma unpack_string_frame (s pre post : list byte) :
  len s < 2 ^ 32 ->
  Unpacker.unpack_string (Unpacker.mk ((pre ++ string_wire s) ++ post) (len pre))
  = (Return s,
     Unpacker.mk ((pre ++ string_wire s) ++ post) (len (pre ++ string_wire s))).
Proof.
  intros Hlen. pose proof (len_nonneg s) as Hs.
  destruct (@pack_string_run s (Packer.mk []) Hlen) as [_ Hwlen].
  destruct (@pack_fstring_run (len s) s (Packer.mk []) Hs) as [_ Hwire].
  unfold Unpacker.unpack_string, bind.
  rewrite string_wire_fstring, <- !app_assoc.
  rewrite unpack_uint_at by lia.
  rewrite unpack_fstring_frame by exact Hs.
  assert (Hfull : firstn (Z.to_nat (len s)) s ++ zeros (len s - len s) = s).
  { unfold len. rewrite Nat2Z.id, firstn_all, Z.sub_diag. apply app_nil_r. }
  rewrite Hfull. rewrite <- !app_assoc. do 2 f_equal.
  rewrite !len_app, Hwire, len_be_encode. lia.
Qed.

(** Variable-length opaque data round-trips in place: for a byte string
    shorter than [2^32], [pack_string] appends the length as a uint, the bytes
    and the zero padding, [4 + ((n+3)//4)*4] bytes in all; [unpack_string]
    with the cursor where the Packer's buffer ended before the call returns
    the string and stops where the packed bytes end, whatever follows; and when
    nothing follows, [done] then returns. *)
Theorem string_roundtrip (s : list byte) (p : Packer.t) (post : list byte) :
  len s < 2 ^ 32 ->
  let data := Packer.buf p ++ string_wire s in
  Packer.pack_string s p = (Return tt, Packer.mk data)
  /\ len (string_wire s) = 4 + (len s + 3) / 4 * 4
  /\ Unpacker.unpack_string (Unpacker.mk (data ++ post) (len (Packer.buf p)))
     = (Return s, Unpacker.mk (data ++ post) (len data))
  /\ Unpacker.done (Unpacker.mk data (len data)) = (Return tt, Unpacker.mk data (len data)).
Proof.
  intros Hlen data. destruct (@pack_string_run s p Hlen) as [Hpack Hwlen].
  split; [exact Hpack | split; [exact Hwlen | split]].
  - now apply unpack_string_frame.
  - unfold Unpacker.done, bind, get, ret. cbn [Unpacker.pos Unpacker.buf].
    now rewrite Z.ltb_irrefl.
Qed.

Lemma string_roundtrip_witness :
  len [x68; x69; x21] < 2 ^ 32
  /\ Packer.pack_string [x68; x69; x21] Packer.init
     = (Return tt, Packer.mk [x00; x00; x00; x03; x68; x69; x21; x00])
  /\ Unpacker.unpack_string (Unpacker.init [x00; x00; x00; x03; x68; x69; x21; x00; xff])
     = (Return [x68; x69; x21],
        Unpacker.mk [x00; x00; x00; x03; x68; x69; x21; x00; xff] 8).
Proof.
  assert (Hlen : len [x68; x69; x21] < 2 ^ 32) by (vm_compute; reflexivity).
  destruct (@string_roundtrip [x68; x69; x21] Packer.init [xff] Hlen)
    as (Hp & _ & Hu & _).
  split; [exact Hlen | split; [exact Hp | exact Hu]].
Defined.

(** ** Arrays *)

Lemma len_farray_wire (vs : list Z) : len (farray_wire vs) = 4 * len vs.
Proof.
  unfold farray_wire. induction vs as [|v vs IH]; [reflexivity|].
  cbn [flat_map]. rewrite len_app, len_be_encode, IH. unfold len. cbn [List.length]. lia.
Qed.

Lemma pack_farray_ints (vs : list Z) (p : Packer.t) :
  Forall int32 vs ->
  for_each vs Packer.pack_int p = (Return tt, Packer.mk (Packer.buf p ++ farray_wire vs)).
Proof.
  intros Hvs. apply for_each_writes. intros x q Hin.
  apply pack_int_ok. rewrite Forall_forall in Hvs. now apply Hvs.
Qed.

Lemma unpack_farray_loop_wire (vs : list Z) :
  Forall int32 vs ->
  forall (pre post : list byte) (acc : list Z),
    Unpacker.unpack_farray_loop (List.length vs) Unpacker.unpack_int acc
      (Unpacker.mk (pre ++ farray_wire vs ++ post) (len pre))
    = (Return (acc ++ vs),
       Unpacker.mk (pre ++ farray_wire vs ++ post) (len (pre ++ farray_wire vs))).
Proof.
  induction 1 as [|v vs Hv Hvs IH]; intros pre post acc.
  - cbn. now rewrite !app_nil_r.
  - cbn [List.length Unpacker.unpack_farray_loop]. unfold bind.
    unfold farray_wire. cbn [flat_map]. fold (farray_wire vs).
    rewrite <- app_assoc. rewrite unpack_int_at by assumption.
    rewrite IH. rewrite <- !app_assoc. reflexivity.
Qed.

(** Fixed-size arrays of 32-bit signed values round-trip in place:
    [pack_farray n vs pack_int] with [n == len(vs)] appends the [4 * n] bytes
    of the elements in order, and [unpack_farray n unpack_int] with the cursor
    where the Packer's buffer ended before the call returns [vs] and stops
    where the packed bytes end, whatever follows. *)
Theorem farray_roundtrip (vs : list Z) (p : Packer.t) (post : list byte) :
  Forall int32 vs ->
  let data := Packer.buf p ++ farray_wire vs in
  Packer.pack_farray (len vs) vs Packer.pack_int p = (Return tt, Packer.mk data)
  /\ len (farray_wire vs) = 4 * len vs
  /\ Unpacker.unpack_farray (len vs) Unpacker.unpack_int
       (Unpacker.mk (data ++ post) (len (Packer.buf p)))
     = (Return vs, Unpacker.mk (data ++ post) (len data)).
Proof.
  intros Hvs data. split; [|split; [apply len_farray_wire|]].
  - unfold Packer.pack_farray. rewrite Z.eqb_refl. cbn [negb].
    now apply pack_farray_ints.
  - unfold Unpacker.unpack_farray, data, len at 1. rewrite Nat2Z.id, <- app_assoc.
    now rewrite unpack_farray_loop_wire.
Qed.

Lemma farray_roundtrip_witness :
  Forall int32 [-1; 2]
  /\ Packer.pack_farray 2 [-1; 2] Packer.pack_int Packer.init
     = (Return tt, Packer.mk [xff; xff; xff; xff; x00; x00; x00; x02])
  /\ Unpacker.unpack_farray 2 Unpacker.unpack_int
       (Unpacker.init [xff; xff; xff; xff; x00; x00; x00; x02; x09])
     = (Return [-1; 2], Unpacker.mk [xff; xff; xff; xff; x00; x00; x00; x02; x09] 8).
Proof.
  assert (Hvs : Forall int32 [-1; 2]) by (repeat constructor; vm_compute; discriminate).
  destruct (@farray_roundtrip [-1; 2] Packer.init [x09] Hvs) as (Hp & _ & Hu).
  split; [exact Hvs | split; [exact Hp | exact Hu]].
Defined.

(** Variable-size arrays of 32-bit signed values round-trip in place: for
    fewer than [2^32] elements, [pack_array vs pack_int] appends the count as a
    uint and then the elements, and [unpack_array unpack_int] with the cursor
    where the Packer's buffer ended before the call returns [vs] and stops
    where the packed bytes end, whatever follows. *)
Theorem array_roundtrip (vs : list Z) (p : Packer.t) (post : list byte) :
  Forall int32 vs -> len vs < 2 ^ 32 ->
  let data := Packer.buf p ++ array_wire vs in
  Packer.pack_array vs Packer.pack_int p = (Return tt, Packer.mk data)
  /\ len (array_wire vs) = 4 + 4 * len vs
  /\ Unpacker.unpack_array Unpacker.unpack_int
       (Unpacker.mk (data ++ post) (len (Packer.buf p)))
     = (Return vs, Unpacker.mk (data ++ post) (len data)).
Proof.
  intros Hvs Hlen data. pose proof (len_nonneg vs) as Hn.
  split; [|split].
  - unfold Packer.pack_array, bind. rewrite pack_uint_ok by lia.
    unfold Packer.pack_farray. rewrite Z.eqb_refl. cbn [negb].
    rewrite pack_farray_ints by assumption. cbn [Packer.buf].
    unfold data, array_wire. now rewrite <- app_assoc.
  - unfold array_wire. rewrite len_app, len_be_encode, len_farray_wire. lia.
  - unfold Unpacker.unpack_array, bind, data, array_wire.
    rewrite <- !app_assoc. rewrite unpack_uint_at by lia.
    unfold Unpacker.unpack_farray, len at 1. rewrite Nat2Z.id.
    rewrite unpack_farray_loop_wire by assumption.
    rewrite <- !app_assoc. reflexivity.
Qed.

Lemma array_roundtrip_witness :
  Forall int32 [-1; 2] /\ len [-1; 2] < 2 ^ 32
  /\ Packer.pack_array [-1; 2] Packer.pack_int Packer.init
     = (Return tt,
        Packer.mk [x00; x00; x00; x02; xff; xff; xff; xff; x00; x00; x00; x02])
  /\ Unpacker.unpack_array Unpacker.unpack_int
       (Unpacker.init [x00; x00; x00; x02; xff; xff; xff; xff; x00; x00; x00; x02])
     = (Return [-1; 2],
        Unpacker.mk [x00; x00; x00; x02; xff; xff; xff; xff; x00; x00; x00; x02] 12).
Proof.
  assert (Hvs : Forall int32 [-1; 2]) by (repeat constructor; vm_compute; discriminate).
  assert (Hlen : len [-1; 2] < 2 ^ 32) by (vm_compute; reflexivity).
  destruct (@array_roundtrip [-1; 2] Packer.init [] Hvs Hlen) as (Hp & _ & Hu).
  split; [exact Hvs | split; [exact Hlen | split; [exact Hp | exact Hu]]].
Defined.

Lemma for_each_app {S T} (l1 l2 : list T) (f : T -> M S unit) (s : S) :
  for_each (l1 ++ l2) f s = (for_each l1 f ;; for_each l2 f) s.
Proof.
  revert s. induction l1 as [|x l1 IH]; intros s; cbn [app for_each]; unfold bind.
  - reflexivity.
  - destruct (f x s) as [[[]|e] s1]; [|reflexivity].
    rewrite IH. reflexivity.
Qed.

(** The loop over the items stops at the first item the item packer refuses,
    with the earlier items written. *)
Lemma for_each_stops (enc : Z -> list byte) (f : Z -> M Packer.t unit)
  (good rest : list Z) (bad : Z) (e : exn) (partial : list byte) (p : Packer.t) :
  (forall x q, In x good -> f x q = (Return tt, Packer.mk (Packer.buf q ++ enc x))) ->
  (forall q, f bad q = (Raise e, Packer.mk (Packer.buf q ++ partial))) ->
  for_each (good ++ bad :: rest) f p
  = (Raise e, Packer.mk (Packer.buf p ++ flat_map enc good ++ partial)).
Proof.
  intros Hgood Hbad. rewrite for_each_app. unfold bind.
  rewrite (for_each_writes enc f good Hgood). cbn [for_each]. unfold bind.
  rewrite Hbad. cbn [Packer.buf]. now rewrite <- app_assoc.
Qed.

(** Packing an array or a list is not atomic: when an item is out of range,
    [pack_farray], [pack_array] and [pack_list] raise [ConversionError] with
    the items before it already written, after the count for [pack_array] and
    followed by the tag 1 of the refused item for [pack_list]. *)
Theorem pack_sequence_partial (good rest : list Z) (bad : Z) (p : Packer.t) :
  Forall int32 good -> ~ int32 bad ->
  let items := good ++ bad :: rest in
  exists msg,
    Packer.pack_farray (len items) items Packer.pack_int p
    = (Raise (ConversionError msg), Packer.mk (Packer.buf p ++ farray_wire good))
    /\ (len items < 2 ^ 32 ->
        Packer.pack_array items Packer.pack_int p
        = (Raise (ConversionError msg),
           Packer.mk (Packer.buf p ++ be_encode 4 (len items) ++ farray_wire good)))
    /\ Packer.pack_list items Packer.pack_int p
       = (Raise (ConversionError msg),
          Packer.mk (Packer.buf p
                       ++ flat_map (fun v => be_encode 4 1 ++ be_encode 4 v) good
                       ++ be_encode 4 1)).
Proof.
  intros Hgood Hbad items. subst items.
  destruct (@pack_int_range_error bad p Hbad) as [msg Hmsg].
  assert (Hraise : forall q, Packer.pack_int bad q
                             = (Raise (ConversionError msg), Packer.mk (Packer.buf q ++ []))).
  { intros [b]. cbn [Packer.buf]. rewrite app_nil_r.
    revert Hmsg. unfold Packer.pack_int, struct_pack_l. unfold_monad.
    destruct ((-2147483648 <=? bad) && (bad <=? 2147483647)); cbn; [discriminate|].
    intros [= <-]. reflexivity. }
  assert (Hin : forall x q, In x good ->
                  Packer.pack_int x q
                  = (Return tt, Packer.mk (Packer.buf q ++ be_encode 4 x))).
  { intros x q Hx. apply pack_int_ok. rewrite Forall_forall in Hgood. now apply Hgood. }
  exists msg. split; [|split].
  - unfold Packer.pack_farray. rewrite Z.eqb_refl. cbn [negb].
    rewrite (@for_each_stops (be_encode 4) Packer.pack_int good rest bad
               (ConversionError msg) [] p Hin Hraise).
    now rewrite app_nil_r.
  - intros Hlen. pose proof (len_nonneg (good ++ bad :: rest)).
    unfold Packer.pack_array, bind. rewrite pack_uint_ok by lia.
    unfold Packer.pack_farray. rewrite Z.eqb_refl. cbn [negb].
    rewrite (@for_each_stops (be_encode 4) Packer.pack_int good rest bad
               (ConversionError msg) [] _ Hin Hraise).
    cbn [Packer.buf]. now rewrite app_nil_r, <- app_assoc.
  - unfold Packer.pack_list. unfold bind at 1.
    rewrite (@for_each_stops (fun v => be_encode 4 1 ++ be_encode 4 v)
               (fun item => Packer.pack_uint 1 ;; Packer.pack_int item)
               good rest bad (ConversionError msg) (be_encode 4 1) p).
    + reflexivity.
    + intros x q Hx. unfold bind. rewrite pack_uint_ok by lia.
      rewrite Hin by assumption. cbn [Packer.buf]. now rewrite <- app_assoc.
    + intros q. unfold bind. rewrite pack_uint_ok by lia.
      rewrite Hraise. cbn [Packer.buf]. now rewrite app_nil_r.
Qed.

Lemma pack_sequence_partial_witness :
  Forall int32 [7] /\ ~ int32 2147483648
  /\ exists msg,
       Packer.pack_farray 3 [7; 2147483648; 9] Packer.pack_int Packer.init
       = (Raise (ConversionError msg), Packer.mk [x00; x00; x00; x07])
       /\ Packer.pack_list [7; 2147483648; 9] Packer.pack_int Packer.init
          = (Raise (ConversionError msg),
             Packer.mk [x00; x00; x00; x01; x00; x00; x00; x07; x00; x00; x00; x01]).
Proof.
  assert (Hgood : Forall int32 [7]) by (repeat constructor; vm_compute; discriminate).
  assert (Hbad : ~ int32 2147483648) by (vm_compute; intros [_ H]; discriminate H).
  destruct (@pack_sequence_partial [7] [9] 2147483648 Packer.init Hgood Hbad)
    as (msg & Hf & _ & Hl).
  split; [exact Hgood | split; [exact Hbad|]].
  exists msg. split; [exact Hf | exact Hl].
Defined.

(** ** The Unpacker reads forward *)

Lemma forward_ret {A} (a : A) : reads_forward (ret a).
Proof. intros u r u' _ [= _ <-]. split; [reflexivity | lia]. Qed.

Lemma forward_raise {A} (e : exn) : reads_forward (@raise Unpacker.t A e).
Proof. intros u r u' _ [= _ <-]. split; [reflexivity | lia]. Qed.

Lemma forward_bind {A B} (c : M Unpacker.t A) (k : A -> M Unpacker.t B) :
  reads_forward c -> (forall a, reads_forward (k a)) -> reads_forward (bind c k).
Proof.
  intros Hc Hk u r u' Hpos. unfold bind.
  destruct (c u) as [[a|e] u1] eqn:E1.
  - intros E2. destruct (Hc _ _ _ Hpos E1) as [Hb1 Hp1].
    assert (Hpos1 : 0 <= Unpacker.pos u1) by lia.
    destruct (Hk a _ _ _ Hpos1 E2) as [Hb2 Hp2].
    split; [congruence | lia].
  - intros [= <- <-]. exact (Hc _ _ _ Hpos E1).
Qed.

Lemma forward_uint : reads_forward Unpacker.unpack_uint.
Proof.
  intros u r u' Hpos. rewrite unpack_uint_run by assumption.
  intros [= _ <-]. cbn. split; [reflexivity | lia].
Qed.

Lemma forward_int : reads_forward Unpacker.unpack_int.
Proof.
  intros u r u' Hpos. rewrite unpack_int_run by assumption.
  intros [= _ <-]. cbn. split; [reflexivity | lia].
Qed.

Lemma forward_float : reads_forward Unpacker.unpack_float.
Proof.
  intros u r u' Hpos. rewrite unpack_float_run by assumption.
  intros [= _ <-]. cbn. split; [reflexivity | lia].
Qed.

Lemma forward_double : reads_forward Unpacker.unpack_double.
Proof.
  intros u r u' Hpos. rewrite unpack_double_run by assumption.
  intros [= _ <-]. cbn. split; [reflexivity | lia].
Qed.

Lemma forward_fstring (n : Z) : reads_forward (Unpacker.unpack_fstring n).
Proof.
  intros u r u' Hpos. destruct (Z.lt_ge_cases n 0) as [Hn | Hn].
  - unfold Unpacker.unpack_fstring. destruct (Z.ltb_spec n 0); [|lia].
    intros [= _ <-]. split; [reflexivity | lia].
  - rewrite unpack_fstring_run by assumption.
    pose proof (aligned_bounds n) as [Ha _].
    destruct (remaining u <? (n + 3) / 4 * 4); intros [= _ <-]; cbn;
      (split; [reflexivity | lia]).
Qed.

Lemma forward_farray_loop {T} (item : M Unpacker.t T) (n : nat) (acc : list T) :
  reads_forward item -> reads_forward (Unpacker.unpack_farray_loop n item acc).
Proof.
  intros Hitem. revert acc. induction n as [|n IH]; intros acc;
    cbn [Unpacker.unpack_farray_loop].
  - apply forward_ret.
  - apply forward_bind; [exact Hitem | intros a; apply IH].
Qed.

Lemma forward_list_loop {T} (item : M Unpacker.t T) (fuel : nat) :
  reads_forward item ->
  forall (acc : list T) u r u',
    0 <= Unpacker.pos u ->
    Unpacker.unpack_list_loop fuel item acc u = Some (r, u') ->
    Unpacker.buf u' = Unpacker.buf u /\ Unpacker.pos u <= Unpacker.pos u'.
Proof.
  intros Hitem. induction fuel as [|fuel IH]; intros acc u r u' Hpos;
    cbn [Unpacker.unpack_list_loop]; [discriminate|].
  destruct (Unpacker.unpack_uint u) as [[x|e] u1] eqn:E1;
    destruct (forward_uint u Hpos E1) as [Hb1 Hp1];
    assert (Hpos1 : 0 <= Unpacker.pos u1) by lia.
  - destruct (x =? 0); [intros [= _ <-]; now split|].
    destruct (negb (x =? 1)); [intros [= _ <-]; now split|].
    destruct (item u1) as [[a|e] u2] eqn:E2;
      destruct (Hitem _ _ _ Hpos1 E2) as [Hb2 Hp2];
      assert (Hpos2 : 0 <= Unpacker.pos u2) by lia.
    + intros E3. destruct (IH _ _ _ _ Hpos2 E3) as [Hb3 Hp3].
      split; [congruence | lia].
    + intros [= _ <-]. split; [congruence | lia].
  - intros [= _ <-]. now split.
Qed.

(** Reading never touches the buffer and never moves the cursor backwards:
    from a cursor at a non-negative offset, every reader leaves the buffer as
    it was and the cursor where it was or further, whether it returns or
    raises; so do the array and list readers when the item reader does. *)
Theorem unpacker_reads_forward :
  reads_forward Unpacker.unpack_uint
  /\ reads_forward Unpacker.unpack_int
  /\ reads_forward Unpacker.unpack_bool
  /\ reads_forward Unpacker.unpack_uhyper
  /\ reads_forward Unpacker.unpack_hyper
  /\ reads_forward Unpacker.unpack_float
  /\ reads_forward Unpacker.unpack_double
  /\ (forall n, reads_forward (Unpacker.unpack_fstring n))
  /\ reads_forward Unpacker.unpack_string
  /\ (forall (T : Type) (unpack_item : M Unpacker.t T),
        reads_forward unpack_item ->
        (forall n, reads_forward (Unpacker.unpack_farray n unpack_item))
        /\ reads_forward (Unpacker.unpack_array unpack_item)
        /\ (forall fuel u r u',
              0 <= Unpacker.pos u ->
              Unpacker.unpack_list fuel unpack_item u = Some (r, u') ->
              Unpacker.buf u' = Unpacker.buf u /\ Unpacker.pos u <= Unpacker.pos u')).
Proof.
  assert (Huhyper : reads_forward Unpacker.unpack_uhyper).
  { unfold Unpacker.unpack_uhyper.
    apply forward_bind; [apply forward_uint | intros hi].
    apply forward_bind; [apply forward_uint | intros lo; apply forward_ret]. }
  split; [exact forward_uint|].
  split; [exact forward_int|].
  split.
  { unfold Unpacker.unpack_bool.
    apply forward_bind; [apply forward_int | intros x; apply forward_ret]. }
  split; [exact Huhyper|].
  split.
  { unfold Unpacker.unpack_hyper. apply forward_bind; [exact Huhyper | intros x].
    destruct (9223372036854775808 <=? x); apply forward_ret. }
  split; [exact forward_float|].
  split; [exact forward_double|].
  split; [exact forward_fstring|].
  split.
  { unfold Unpacker.unpack_string.
    apply forward_bind; [apply forward_uint | intros n; apply forward_fstring]. }
  intros T unpack_item Hitem. split; [|split].
  - intros n. unfold Unpacker.unpack_farray. now apply forward_farray_loop.
  - unfold Unpacker.unpack_array.
    apply forward_bind; [apply forward_uint | intros n].
    unfold Unpacker.unpack_farray. now apply forward_farray_loop.
  - intros fuel u r u'. unfold Unpacker.unpack_list. now apply forward_list_loop.
Qed.

Lemma unpacker_reads_forward_witness :
  reads_forward (Unpacker.unpack_farray 3 Unpacker.unpack_string)
  /\ reads_forward (Unpacker.unpack_array Unpacker.unpack_string).
Proof.
  destruct unpacker_reads_forward as (_ & _ & _ & _ & _ & _ & _ & _ & Hstring & Hitems).
  destruct (Hitems (list byte) Unpacker.unpack_string Hstring) as (Hfarray & Harray & _).
  split; [exact (Hfarray 3) | exact Harray].
Defined.

(** ** The loop of unpack_list *)

Lemma unpack_list_loop_terminates {T} (item : M Unpacker.t T) :
  reads_forward item ->
  forall (fuel : nat) (acc : list T) (u : Unpacker.t),
    0 <= Unpacker.pos u ->
    (0 < fuel)%nat -> remaining u < 4 * Z.of_nat fuel ->
    exists r u', Unpacker.unpack_list_loop fuel item acc u = Some (r, u').
Proof.
  intros Hitem. induction fuel as [|fuel IH]; intros acc u Hpos Hfuel Hrem; [lia|].
  cbn [Unpacker.unpack_list_loop].
  rewrite unpack_uint_bytes by assumption.
  destruct (Z.ltb_spec (remaining u) 4) as [H4 | H4]; [eauto|].
  destruct (be_decode (bytes_at u 4) =? 0); [eauto|].
  destruct (negb (be_decode (bytes_at u 4) =? 1)); [eauto|].
  destruct (item (advance u 4)) as [[a|e] u2] eqn:E2; [|eauto].
  destruct (Hitem (advance u 4) _ _ ltac:(cbn; lia) E2) as [Hb2 Hp2].
  cbn [advance Unpacker.pos Unpacker.buf] in Hb2, Hp2.
  apply IH; unfold remaining in *; rewrite ?Hb2; lia.
Qed.

(** [unpack_list] returns or raises, it does not loop, for every item reader
    that leaves the buffer as it is and never moves the cursor backwards: from
    a cursor at a non-negative offset each iteration consumes the four bytes
    of a tag, so [remaining // 4 + 1] iterations are enough (one, when the
    cursor is already past the end). *)
Theorem unpack_list_terminates {T} (unpack_item : M Unpacker.t T) (fuel : nat)
  (u : Unpacker.t) :
  reads_forward unpack_item ->
  0 <= Unpacker.pos u ->
  (0 < fuel)%nat -> remaining u < 4 * Z.of_nat fuel ->
  exists r u', Unpacker.unpack_list fuel unpack_item u = Some (r, u').
Proof.
  intros Hitem Hpos Hfuel Hrem. unfold Unpacker.unpack_list.
  now apply unpack_list_loop_terminates.
Qed.

Lemma unpack_list_terminates_witness :
  0 <= 0 /\ (0 < 3)%nat
  /\ exists r u',
       Unpacker.unpack_list 3 Unpacker.unpack_int
         (Unpacker.init [x00; x00; x00; x01; x00; x00; x00; x07; x00; x00]) = Some (r, u').
Proof.
  split; [lia | split; [lia|]].
  apply (@unpack_list_terminates Z Unpacker.unpack_int 3
           (Unpacker.init [x00; x00; x00; x01; x00; x00; x00; x07; x00; x00])).
  - exact forward_int.
  - cbn. lia.
  - lia.
  - vm_compute. reflexivity.
Defined.

(** The fuel is not an artefact: an item reader that rewinds the cursor
    makes the loop of [unpack_list] run forever.  On any buffer that starts
    with the tag 1, with [set_position(0)] as item reader, no number of
    iterations gives a result. *)
Theorem unpack_list_rewinding_item_diverges (post : list byte) (fuel : nat) :
  Unpacker.unpack_list fuel (Unpacker.set_position 0)
    (Unpacker.init (be_encode 4 1 ++ post)) = None.
Proof.
  unfold Unpacker.unpack_list. generalize (@nil unit) as acc.
  induction fuel as [|fuel IH]; intros acc; [reflexivity|].
  cbn [Unpacker.unpack_list_loop].
  rewrite unpack_uint_first by lia. cbn [Z.eqb Pos.eqb negb].
  unfold Unpacker.set_position at 1, bind, get, put.
  cbn [Unpacker.buf]. apply IH.
Qed.

Lemma unpack_list_tags_only (vs : list Z) :
  Forall int32 vs ->
  forall (fuel : nat) (pre : list byte) (acc : list Z),
    (List.length vs < fuel)%nat ->
    let wire := flat_map (fun v => be_encode 4 1 ++ be_encode 4 v) vs in
    Unpacker.unpack_list_loop fuel Unpacker.unpack_int acc
      (Unpacker.mk (pre ++ wire) (len pre))
    = Some (Raise EOFError, Unpacker.mk (pre ++ wire) (len (pre ++ wire) + 4)).
Proof.
  induction 1 as [|v vs Hv Hvs IH]; intros fuel pre acc Hfuel wire; subst wire.
  - destruct fuel as [|fuel]; [cbn in Hfuel; lia|].
    cbn [Unpacker.unpack_list_loop flat_map].
    rewrite unpack_uint_bytes by (cbn; apply len_nonneg).
    rewrite remaining_frame. cbn [len List.length Z.of_nat].
    change (0 <? 4) with true. cbv iota.
    unfold advance. cbn [Unpacker.pos Unpacker.buf]. now rewrite app_nil_r.
  - destruct fuel as [|fuel]; [cbn in Hfuel; lia|].
    cbn [Unpacker.unpack_list_loop flat_map].
    rewrite <- !app_assoc.
    rewrite unpack_uint_at by lia. cbn [Z.eqb Pos.eqb negb].
    rewrite unpack_int_at by assumption.
    specialize (IH fuel ((pre ++ be_encode 4 1) ++ be_encode 4 v) (acc ++ [v])
                  ltac:(cbn in Hfuel; lia)).
    cbv zeta in IH. rewrite IH. rewrite <- !app_assoc. reflexivity.
Qed.

(** A list whose terminating tag 0 is missing does not decode: on the
    [(tag 1, element)] pairs of [vs] alone, [unpack_list unpack_int] reads all
    of them and then raises [EOFError] on the tag it looks for, leaving the
    cursor four bytes past the end of the buffer. *)
Theorem unpack_list_unterminated (vs : list Z) (fuel : nat) :
  Forall int32 vs -> (List.length vs < fuel)%nat ->
  let wire := flat_map (fun v => be_encode 4 1 ++ be_encode 4 v) vs in
  Unpacker.unpack_list fuel Unpacker.unpack_int (Unpacker.init wire)
  = Some (Raise EOFError, Unpacker.mk wire (len wire + 4)).
Proof.
  intros Hvs Hfuel wire. unfold Unpacker.unpack_list, Unpacker.init.
  exact (@unpack_list_tags_only vs Hvs fuel [] [] Hfuel).
Qed.

Lemma unpack_list_unterminated_witness :
  Forall int32 [7]
  /\ Unpacker.unpack_list 2 Unpacker.unpack_int
       (Unpacker.init [x00; x00; x00; x01; x00; x00; x00; x07])
     = Some (Raise EOFError, Unpacker.mk [x00; x00; x00; x01; x00; x00; x00; x07] 12).
Proof.
  assert (Hvs : Forall int32 [7]) by (repeat constructor; vm_compute; discriminate).
  split; [exact Hvs|].
  exact (@unpack_list_unterminated [7] 2 Hvs ltac:(cbn; lia)).
Defined.

(** ** Counts that the buffer cannot honour *)

Lemma advance_advance (u : Unpacker.t) (a b : Z) :
  advance (advance u a) b = advance u (a + b).
Proof.
  unfold advance. cbn [Unpacker.pos Unpacker.buf]. f_equal. lia.
Qed.

Lemma remaining_advance (u : Unpacker.t) (a : Z) :
  remaining (advance u a) = remaining u - a.
Proof.
  unfold remaining, advance. cbn [Unpacker.pos Unpacker.buf]. lia.
Qed.

Lemma unpack_farray_loop_enough (k : nat) :
  forall (acc : list Z) (u : Unpacker.t),
    0 <= Unpacker.pos u -> 4 * Z.of_nat k <= remaining u ->
    exists vs,
      Unpacker.unpack_farray_loop k Unpacker.unpack_uint acc u
      = (Return (acc ++ vs), advance u (4 * Z.of_nat k))
      /\ List.length vs = k.
Proof.
  induction k as [|k IH]; intros acc u Hpos Hrem.
  - exists []. split; [|reflexivity]. cbn. rewrite app_nil_r.
    unfold advance. rewrite Z.add_0_r. now destruct u.
  - cbn [Unpacker.unpack_farray_loop]. unfold bind.
    rewrite unpack_uint_bytes by assumption.
    destruct (Z.ltb_spec (remaining u) 4); [lia|].
    destruct (IH (acc ++ [be_decode (bytes_at u 4)]) (advance u 4)) as (vs & Hrun & Hlen).
    + cbn. lia.
    + rewrite remaining_advance. lia.
    + exists (be_decode (bytes_at u 4) :: vs). split; [|cbn; now rewrite Hlen].
      rewrite Hrun, advance_advance, <- app_assoc. do 2 f_equal. lia.
Qed.

Lemma unpack_farray_loop_short (k : nat) :
  forall (acc : list Z) (u : Unpacker.t),
    0 <= Unpacker.pos u -> 0 <= remaining u < 4 * Z.of_nat k ->
    Unpacker.unpack_farray_loop k Unpacker.unpack_uint acc u
    = (Raise EOFError, advance u (4 * (remaining u / 4) + 4)).
Proof.
  induction k as [|k IH]; intros acc u Hpos Hrem; [lia|].
  cbn [Unpacker.unpack_farray_loop]. unfold bind.
  rewrite unpack_uint_bytes by assumption.
  destruct (Z.ltb_spec (remaining u) 4) as [H4 | H4].
  - rewrite Z.div_small by lia. reflexivity.
  - assert (Hpos' : 0 <= Unpacker.pos (advance u 4)) by (cbn; lia).
    assert (Hrem' : 0 <= remaining (advance u 4) < 4 * Z.of_nat k)
      by (rewrite remaining_advance; lia).
    rewrite (IH _ _ Hpos' Hrem').
    rewrite advance_advance, remaining_advance. do 2 f_equal.
    replace (remaining u) with (remaining u - 4 + 1 * 4) at 2 by lia.
    rewrite Z.div_add by lia. lia.
Qed.

(** From a cursor at a non-negative offset,
    [unpack_farray n unpack_uint] reads exactly [n] words: with [4 * n]
    bytes or more past the cursor it returns [n] values and advances by
    [4 * n]; with fewer it raises [EOFError] after consuming every whole word
    that was there, the cursor ending four bytes past the last of them; with
    [n <= 0] it returns the empty list without calling the item reader.
    [unpack_array] trusts the count it reads in the same way. *)
Theorem unpack_farray_count (n : Z) (u : Unpacker.t) :
  0 <= Unpacker.pos u ->
  (0 <= n -> 4 * n <= remaining u ->
   exists vs, Unpacker.unpack_farray n Unpacker.unpack_uint u
              = (Return vs, advance u (4 * n))
              /\ len vs = n)
  /\ (0 <= remaining u < 4 * n ->
      Unpacker.unpack_farray n Unpacker.unpack_uint u
      = (Raise EOFError, advance u (4 * (remaining u / 4) + 4)))
  /\ (n <= 0 ->
      forall (T : Type) (unpack_item : M Unpacker.t T),
        Unpacker.unpack_farray n unpack_item u = (Return [], u))
  /\ (4 <= remaining u -> remaining u - 4 < 4 * be_decode (bytes_at u 4) ->
      Unpacker.unpack_array Unpacker.unpack_uint u
      = (Raise EOFError, advance u (4 * (remaining u / 4) + 4))).
Proof.
  intros Hpos. split; [|split; [|split]].
  - intros Hn Hrem. unfold Unpacker.unpack_farray.
    destruct (@unpack_farray_loop_enough (Z.to_nat n) [] u Hpos) as (vs & Hrun & Hlen);
      [rewrite Z2Nat.id; lia|].
    exists vs. rewrite Z2Nat.id in Hrun by lia.
    split; [exact Hrun | unfold len; lia].
  - intros Hrem. unfold Unpacker.unpack_farray.
    apply unpack_farray_loop_short; [assumption|]. rewrite Z2Nat.id; lia.
  - intros Hn T unpack_item. unfold Unpacker.unpack_farray.
    replace (Z.to_nat n) with 0%nat by lia. reflexivity.
  - intros H4 Hcount. unfold Unpacker.unpack_array, bind.
    rewrite unpack_uint_bytes by assumption.
    destruct (Z.ltb_spec (remaining u) 4); [lia|].
    unfold Unpacker.unpack_farray.
    rewrite unpack_farray_loop_short.
    + rewrite advance_advance, remaining_advance. do 2 f_equal.
      replace (remaining u) with (remaining u - 4 + 1 * 4) at 2 by lia.
      rewrite Z.div_add by lia. lia.
    + cbn. lia.
    + rewrite remaining_advance.
      pose proof (be_decode_range (bytes_at u 4)) as Hv.
      rewrite Z2Nat.id; lia.
Qed.

Lemma unpack_farray_count_witness :
  0 <= 0
  /\ Unpacker.unpack_farray 3 Unpacker.unpack_uint
       (Unpacker.init [x00; x00; x00; x01; x00; x00; x00; x02; x09])
     = (Raise EOFError,
        Unpacker.mk [x00; x00; x00; x01; x00; x00; x00; x02; x09] 12)
  /\ Unpacker.unpack_array Unpacker.unpack_uint
       (Unpacker.init [x00; x00; x00; x05; x00; x00; x00; x02; x09])
     = (Raise EOFError,
        Unpacker.mk [x00; x00; x00; x05; x00; x00; x00; x02; x09] 12).
Proof.
  split; [lia | split].
  - exact (proj1 (proj2 (@unpack_farray_count 3
                           (Unpacker.init [x00; x00; x00; x01; x00; x00; x00; x02; x09])
                           ltac:(cbn; lia)))
             ltac:(vm_compute; split; [discriminate | reflexivity])).
  - exact (proj2 (proj2 (proj2 (@unpack_farray_count 0
                           (Unpacker.init [x00; x00; x00; x05; x00; x00; x00; x02; x09])
                           ltac:(cbn; lia))))
             ltac:(vm_compute; discriminate) ltac:(vm_compute; reflexivity)).
Defined.

(** ** Positions set by hand *)

Lemma py_slice_negative {A} (l : list A) (k : Z) :
  k < 0 ->
  (- len l <= k <= -5 ->
   py_slice l k (k + 4) = firstn 4 (skipn (Z.to_nat (len l + k)) l)
   /\ len (py_slice l k (k + 4)) = 4)
  /\ (~ - len l <= k <= -5 -> len (py_slice l k (k + 4)) < 4).
Proof.
  intros Hk. pose proof (len_nonneg l) as Hl.
  unfold py_slice, slice_index. destruct (Z.ltb_spec k 0); [|lia].
  split; intros Hrange.
  - destruct (Z.ltb_spec (k + 4) 0); [|lia].
    rewrite !Z.max_l by lia.
    replace (k + 4 + len l - (k + len l)) with 4 by lia.
    replace (k + len l) with (len l + k) by lia.
    split; [reflexivity|].
    unfold len in *. rewrite length_firstn, length_skipn. lia.
  - unfold len in *. rewrite length_firstn, length_skipn.
    destruct (Z.ltb_spec (k + 4) 0); lia.
Qed.

(** [set_position] checks nothing, and a negative position is not refused by
    the readers either: it counts from the end of the buffer, as a Python
    slice does.  After [set_position(k)] with [-len(buffer) <= k <= -5],
    [unpack_uint] returns the word that starts [-k] bytes before the end and
    leaves the cursor at [k + 4]; for every other negative [k] it raises
    [EOFError], the cursor again at [k + 4]. *)
Theorem negative_position_counts_from_end (data : list byte) (k : Z) :
  k < 0 ->
  let read := Unpacker.set_position k ;; Unpacker.unpack_uint in
  (- len data <= k <= -5 ->
   read (Unpacker.init data)
   = (Return (be_decode (firstn 4 (skipn (Z.to_nat (len data + k)) data))),
      Unpacker.mk data (k + 4)))
  /\ (~ - len data <= k <= -5 ->
      read (Unpacker.init data) = (Raise EOFError, Unpacker.mk data (k + 4))).
Proof.
  intros Hk read. subst read.
  destruct (@py_slice_negative byte data k Hk) as [Hin Hout].
  unfold Unpacker.unpack_uint, Unpacker.set_position, Unpacker.get_position,
    Unpacker.get_buffer, Unpacker.init, bind, get, put, ret, raise.
  cbn [Unpacker.pos Unpacker.buf].
  split; intros Hrange.
  - destruct (Hin Hrange) as [Hslice Hlen]. rewrite Hlen, Hslice. reflexivity.
  - specialize (Hout Hrange).
    destruct (Z.ltb_spec (len (py_slice data k (k + 4))) 4); [reflexivity | lia].
Qed.

Lemma negative_position_counts_from_end_witness :
  -6 < 0
  /\ (Unpacker.set_position (-6) ;; Unpacker.unpack_uint)
       (Unpacker.init [x01; x02; x03; x04; x05; x06; x07; x08])
     = (Return 50595078, Unpacker.mk [x01; x02; x03; x04; x05; x06; x07; x08] (-2))
  /\ (Unpacker.set_position (-4) ;; Unpacker.unpack_uint)
       (Unpacker.init [x01; x02; x03; x04; x05; x06; x07; x08])
     = (Raise EOFError, Unpacker.mk [x01; x02; x03; x04; x05; x06; x07; x08] 0).
Proof.
  split; [lia | split].
  - exact (proj1 (@negative_position_counts_from_end
                    [x01; x02; x03; x04; x05; x06; x07; x08] (-6) ltac:(lia))
             ltac:(vm_compute; split; discriminate)).
  - exact (proj2 (@negative_position_counts_from_end
                    [x01; x02; x03; x04; x05; x06; x07; x08] (-4) ltac:(lia))
             ltac:(vm_compute; intros [_ H]; apply H; reflexivity)).
Defined.

(** ** Floats read from the wire *)

Lemma digits2_le (m : positive) (k : Z) :
  0 <= k -> Zpos m < 2 ^ k -> Zpos (digits2_pos m) <= k.
Proof.
  intros Hk Hm. pose proof (digits2_bounds m) as [Hlo _].
  destruct (Z.le_gt_cases (Zpos (digits2_pos m)) k) as [|Hgt]; [assumption|].
  assert (Hle : k <= Zpos (digits2_pos m) - 1) by lia.
  apply (Z.pow_le_mono_r 2) in Hle; lia.
Qed.

Lemma digits2_ge (m : positive) (k : Z) :
  2 ^ k <= Zpos m -> k < Zpos (digits2_pos m).
Proof.
  intros Hm. pose proof (digits2_bounds m) as [_ Hhi].
  destruct (Z.lt_ge_cases k (Zpos (digits2_pos m))) as [|Hge]; [assumption|].
  apply (Z.pow_le_mono_r 2) in Hge; lia.
Qed.

Section DecodedFloats.
Variables mw ew : Z.
Hypothesis Hmw : 0 < mw.
Hypothesis Hew : 1 < ew.

(** Every bit pattern decodes to a number of the format. *)
Lemma float_of_bits_valid (x : Z) :
  valid_binary (mw + 1) (2 ^ (ew - 1)) (float_of_bits mw ew x) = true.
Proof.
  unfold float_of_bits.
  assert (HP : 0 < 2 ^ mw) by (apply Z.pow_pos_nonneg; lia).
  assert (HQ : 2 ^ ew = 2 * 2 ^ (ew - 1)).
  { rewrite <- Z.pow_succ_r by lia. f_equal. lia. }
  assert (Hemax : 2 <= 2 ^ (ew - 1)).
  { change 2 with (2 ^ 1) at 1. apply Z.pow_le_mono_r; lia. }
  pose proof (Z.mod_pos_bound x (2 ^ mw) HP) as HM.
  pose proof (Z.mod_pos_bound (x / 2 ^ mw) (2 ^ ew) ltac:(lia)) as HE.
  set (M := x mod 2 ^ mw) in *. set (E := (x / 2 ^ mw) mod 2 ^ ew) in *.
  set (s := 2 ^ ew <=? x / 2 ^ mw).
  destruct (Z.eqb_spec E 0) as [HE0 | HE0].
  - destruct M as [|p|p] eqn:EM; try reflexivity.
    cbn [valid_binary]. unfold bounded, canonical_mantissa, fexp, emin.
    pose proof (@digits2_le p mw ltac:(lia) ltac:(lia)) as Hd.
    apply andb_true_iff. split; [apply Z.eqb_eq | apply Z.leb_le]; lia.
  - destruct (Z.eqb_spec E (2 ^ ew - 1)) as [HE1 | HE1].
    + destruct (M =? 0); reflexivity.
    + destruct (M + 2 ^ mw) as [|p|p] eqn:EM; try reflexivity.
      cbn [valid_binary]. unfold bounded, canonical_mantissa, fexp, emin.
      assert (Hlo : 2 ^ mw <= Zpos p) by lia.
      assert (Hhi : Zpos p < 2 ^ (mw + 1))
        by (rewrite Z.pow_add_r by lia; change (2 ^ 1) with 2; lia).
      pose proof (@digits2_ge p mw Hlo) as Hd1.
      pose proof (@digits2_le p (mw + 1) ltac:(lia) Hhi) as Hd2.
      apply andb_true_iff. split; [apply Z.eqb_eq | apply Z.leb_le]; lia.
Qed.
End DecodedFloats.

(** Whatever the four bytes at the cursor are, [unpack_float] returns a
    Python float that is a binary32 number, and [pack_float] packs every such
    value without raising: a float read from the wire can always be written
    back. *)
Theorem unpack_float_is_single (u : Unpacker.t) (p : Packer.t) :
  0 <= Unpacker.pos u -> 4 <= remaining u ->
  exists v,
    Unpacker.unpack_float u = (Return v, advance u 4)
    /\ valid_binary 53 1024 v = true
    /\ single_exact v = true
    /\ exists data,
         Packer.pack_float v p = (Return tt, Packer.mk (Packer.buf p ++ data))
         /\ len data = 4.
Proof.
  intros Hpos Hrem. rewrite unpack_float_run by assumption.
  unfold remaining in Hrem.
  destruct (Z.ltb_spec (len (Unpacker.buf u)) (Unpacker.pos u + 4)); [lia|].
  eexists. split; [reflexivity|]. unfold struct_unpack_f.
  set (y := float_of_bits 23 8 _).
  assert (Hy : valid_binary 24 128 y = true)
    by exact (@float_of_bits_valid 23 8 ltac:(lia) ltac:(lia) _).
  destruct (double_to_single_to_double y Hy) as [Hback Hvalid].
  split; [exact Hvalid | split; [now apply single_exact_complete|]].
  exists (be_encode 4 (bits_of_float 23 8 y)). split; [|apply len_be_encode].
  unfold Packer.pack_float, raise_conversion_error, try_except, bind, lift, struct_pack_f.
  rewrite Hback.
  assert (Hfinite : is_infinity y && negb (is_infinity (single_to_double y)) = false).
  { destruct y as [s | s | | s m e]; reflexivity. }
  rewrite Hfinite. reflexivity.
Qed.

Lemma unpack_float_is_single_witness :
  0 <= 0 /\ 4 <= 4
  /\ exists v,
       Unpacker.unpack_float (Unpacker.init [x7f; x7f; xff; xff])
       = (Return v, Unpacker.mk [x7f; x7f; xff; xff] 4)
       /\ single_exact v = true.
Proof.
  split; [lia | split; [lia|]].
  destruct (@unpack_float_is_single (Unpacker.init [x7f; x7f; xff; xff]) Packer.init
              ltac:(cbn; lia) ltac:(vm_compute; discriminate))
    as (v & Hrun & _ & Hexact & _).
  exists v. split; [exact Hrun | exact Hexact].
Defined.

(** ** Floats too large for single precision *)

Lemma shr_1_m (mrs : shr_record) :
  0 <= shr_m mrs -> shr_m (shr_1 mrs) = shr_m mrs / 2.
Proof.
  destruct mrs as [m r s]. cbn [shr_m]. intros Hm.
  destruct m as [|p|p]; [reflexivity| |lia].
  destruct p as [q|q|]; cbn [shr_1 shr_m].
  - rewrite (Pos2Z.inj_xI q). apply (Z.div_unique _ 2 _ 1); lia.
  - rewrite (Pos2Z.inj_xO q). apply (Z.div_unique _ 2 _ 0); lia.
  - reflexivity.
Qed.

Lemma shr_iter_m (k : positive) (mrs : shr_record) :
  0 <= shr_m mrs -> shr_m (Pos.iter shr_1 mrs k) = shr_m mrs / 2 ^ Zpos k.
Proof.
  revert mrs. induction k as [|k IH] using Pos.peano_ind; intros mrs Hm.
  - cbn [Pos.iter]. now rewrite shr_1_m.
  - rewrite Pos.iter_succ_r, IH, shr_1_m by (rewrite ?shr_1_m by lia;
                                              try apply Z.div_pos; lia).
    rewrite Pos2Z.inj_succ, Z.pow_succ_r by lia.
    rewrite Z.div_div by (try apply Z.pow_pos_nonneg; lia). reflexivity.
Qed.

Lemma round_nearest_even_bounds (mx : Z) (lx : location) :
  mx <= round_nearest_even mx lx <= mx + 1.
Proof.
  destruct lx as [|[]]; cbn [round_nearest_even]; try lia.
  destruct (Z.even mx); lia.
Qed.

(** A binary64 number of magnitude [2^128] or more becomes an infinity when
    cast to single precision. *)
Lemma double_to_single_overflow (s : bool) (m : positive) (e : Z) :
  Zpos (digits2_pos m) = 53 -> 76 <= e ->
  double_to_single (S754_finite s m e) = S754_infinity s.
Proof.
  intros Hd He. pose proof (digits2_bounds m) as Hm. rewrite Hd in Hm.
  change (2 ^ (53 - 1)) with 4503599627370496 in Hm.
  change (2 ^ 53) with 9007199254740992 in Hm.
  cbn [double_to_single]. unfold binary_round. rewrite Hd.
  assert (Hf : fexp 24 128 (53 + e) = e + 29) by (unfold fexp, emin; lia).
  rewrite Hf. unfold shl_align. replace (e + 29 - e) with 29 by lia. cbv iota beta.
  unfold binary_round_aux, shr_fexp at 1. cbn [Zdigits2 shr_record_of_loc].
  rewrite Hd, Hf. replace (e + 29 - e) with 29 by lia. cbn [shr].
  rewrite iter_pos_iter.
  set (mrs := Pos.iter shr_1 _ 29).
  assert (Hq : 8388608 <= shr_m mrs < 16777216).
  { unfold mrs. rewrite shr_iter_m by (cbn; lia). cbn [shr_m].
    change (2 ^ 29) with 536870912.
    split; [apply Z.div_le_lower_bound | apply Z.div_lt_upper_bound]; lia. }
  pose proof (round_nearest_even_bounds (shr_m mrs) (loc_of_shr_record mrs)) as Hr.
  destruct (round_nearest_even (shr_m mrs) (loc_of_shr_record mrs)) as [|q|q]; try lia.
  unfold shr_fexp. cbn [Zdigits2 shr_record_of_loc].
  pose proof (@digits2_ge q 23 ltac:(change (2 ^ 23) with 8388608; lia)) as Hd1.
  pose proof (@digits2_le q 25 ltac:(lia) ltac:(change (2 ^ 25) with 33554432; lia)) as Hd2.
  assert (Hcase : Zpos (digits2_pos q) = 24 \/ Zpos (digits2_pos q) = 25) by lia.
  destruct Hcase as [H24 | H25].
  - rewrite H24. replace (fexp 24 128 (24 + (e + 29)) - (e + 29)) with 0
      by (unfold fexp, emin; lia).
    cbn [shr shr_m]. destruct (Z.leb_spec (e + 29) (128 - 24)); [lia | reflexivity].
  - rewrite H25. replace (fexp 24 128 (25 + (e + 29)) - (e + 29)) with 1
      by (unfold fexp, emin; lia).
    cbn [shr iter_pos].
    destruct q as [q|q|]; cbn [shr_1 shr_m orb].
    + destruct (Z.leb_spec (e + 29 + 1) (128 - 24)); [lia | reflexivity].
    + destruct (Z.leb_spec (e + 29 + 1) (128 - 24)); [lia | reflexivity].
    + cbn in H25. discriminate H25.
Qed.

(** [pack_float] lets an [OverflowError] through: for a finite Python float
    of magnitude [2^128] or more (a normal binary64 number with exponent
    [e >= 76]) the call raises [OverflowError], which is neither a
    [ConversionError] nor any [Error] of the module, and writes nothing. *)
Theorem pack_float_overflow_escapes (s : bool) (m : positive) (e : Z) (p : Packer.t) :
  valid_binary 53 1024 (S754_finite s m e) = true -> 76 <= e ->
  exists exc,
    Packer.pack_float (S754_finite s m e) p = (Raise exc, p)
    /\ exc = OverflowError "float too large to pack with f format"
    /\ isinstance_Error exc = false
    /\ is_ConversionError exc = false.
Proof.
  intros Hv He. cbn [valid_binary] in Hv.
  apply bounded_cases in Hv as (_ & _ & _ & Hcanon). unfold emin in Hcanon.
  assert (Hd : Zpos (digits2_pos m) = 53) by lia.
  eexists. split; [|split; [reflexivity | split; reflexivity]].
  unfold Packer.pack_float, raise_conversion_error, try_except, bind, lift, struct_pack_f.
  rewrite (double_to_single_overflow s m Hd He). reflexivity.
Qed.

Lemma pack_float_overflow_escapes_witness :
  valid_binary 53 1024 (S754_finite false 4503599627370496 76) = true /\ 76 <= 76
  /\ Packer.pack_float (S754_finite false 4503599627370496 76) Packer.init
     = (Raise (OverflowError "float too large to pack with f format"), Packer.init).
Proof.
  assert (Hv : valid_binary 53 1024 (S754_finite false 4503599627370496 76) = true)
    by reflexivity.
  split; [exact Hv | split; [lia|]].
  destruct (@pack_float_overflow_escapes false 4503599627370496 76 Packer.init Hv
              ltac:(lia)) as (exc & Hrun & -> & _).
  exact Hrun.
Defined.

(** ** Hypers that are cut short, and records *)

(** From a cursor at a non-negative offset, [unpack_uhyper] and
    [unpack_hyper] need eight bytes and read them as two
    words: with fewer than four bytes left they raise [EOFError] with the
    cursor advanced by four, and with four to seven bytes left they consume the
    first word and raise with the cursor advanced by eight. *)
Theorem unpack_hyper_cut_short (u : Unpacker.t) :
  0 <= Unpacker.pos u ->
  (remaining u < 4 ->
   Unpacker.unpack_uhyper u = (Raise EOFError, advance u 4)
   /\ Unpacker.unpack_hyper u = (Raise EOFError, advance u 4))
  /\ (4 <= remaining u < 8 ->
      Unpacker.unpack_uhyper u = (Raise EOFError, advance u 8)
      /\ Unpacker.unpack_hyper u = (Raise EOFError, advance u 8))
  /\ (8 <= remaining u ->
      Unpacker.unpack_uhyper u = (Return (be_decode (bytes_at u 8)), advance u 8)
      /\ Unpacker.unpack_hyper u
         = (Return (signed64 (be_decode (bytes_at u 8))), advance u 8)).
Proof.
  intros Hpos. rewrite unpack_uhyper_bytes, unpack_hyper_bytes by assumption.
  split; [|split]; intros Hrem;
    destruct (Z.ltb_spec (remaining u) 8); destruct (Z.ltb_spec (remaining u) 4);
    try lia; split; reflexivity.
Qed.

Lemma unpack_hyper_cut_short_witness :
  0 <= 0
  /\ Unpacker.unpack_hyper (Unpacker.init [x00; x00; x00; x01; x02; x03])
     = (Raise EOFError, Unpacker.mk [x00; x00; x00; x01; x02; x03] 8).
Proof.
  split; [lia|].
  exact (proj2 (proj1 (proj2 (@unpack_hyper_cut_short
                                (Unpacker.init [x00; x00; x00; x01; x02; x03])
                                ltac:(cbn; lia)))
                  ltac:(vm_compute; split; [discriminate | reflexivity]))).
Defined.

Lemma signed64_id (v : Z) : - 2 ^ 63 <= v < 2 ^ 63 -> signed64 v = v.
Proof.
  intros Hv. unfold signed64. rewrite Z.mod_small by lia. lia.
Qed.

Lemma unpack_hyper_at (pre post : list byte) (v : Z) :
  - 2 ^ 63 <= v < 2 ^ 63 ->
  Unpacker.unpack_hyper (Unpacker.mk (pre ++ be_encode 8 v ++ post) (len pre))
  = (Return v,
     Unpacker.mk ((pre ++ be_encode 8 v) ++ post) (len (pre ++ be_encode 8 v))).
Proof.
  intros Hv. pose proof (len_nonneg pre). pose proof (len_nonneg post).
  rewrite unpack_hyper_bytes by (cbn; lia).
  rewrite remaining_frame, len_app, len_be_encode.
  destruct (Z.ltb_spec (Z.of_nat 8 + len post) 8); [lia|].
  destruct (Z.ltb_spec (Z.of_nat 8 + len post) 4); [lia|].
  rewrite bytes_at_frame by (rewrite length_be_encode; lia).
  rewrite <- (length_be_encode 8 v) at 1. rewrite firstn_all.
  rewrite be_decode_encode. change (256 ^ Z.of_nat 8) with (2 ^ 64).
  unfold signed64 at 1. rewrite Zplus_mod_idemp_l. fold (signed64 v).
  rewrite signed64_id by assumption.
  unfold advance. cbn [Unpacker.pos Unpacker.buf].
  rewrite <- app_assoc, len_app, len_be_encode. reflexivity.
Qed.

Lemma unpack_bool_at (pre post : list byte) (b : bool) :
  Unpacker.unpack_bool
    (Unpacker.mk (pre ++ be_encode 4 (if b then 1 else 0) ++ post) (len pre))
  = (Return b,
     Unpacker.mk ((pre ++ be_encode 4 (if b then 1 else 0)) ++ post)
       (len (pre ++ be_encode 4 (if b then 1 else 0)))).
Proof.
  unfold Unpacker.unpack_bool, bind.
  rewrite unpack_int_at by (destruct b; unfold int32; lia).
  destruct b; reflexivity.
Qed.

Lemma pack_bool_bytes (b : bool) (p : Packer.t) :
  Packer.pack_bool b p
  = (Return tt, Packer.mk (Packer.buf p ++ be_encode 4 (if b then 1 else 0))).
Proof.
  destruct b; reflexivity.
Qed.

(** Calls compose: a record written as a uint, a string, a hyper and a bool,
    one after the other into a fresh Packer, is read back field by field by the
    matching readers in the same order, after which [done] returns. *)
Theorem record_roundtrip (a : Z) (s : list byte) (h : Z) (b : bool) :
  0 <= a < 2 ^ 32 -> len s < 2 ^ 32 -> - 2 ^ 63 <= h < 2 ^ 63 ->
  exists data,
    (Packer.pack_uint a ;; Packer.pack_string s ;; Packer.pack_hyper h ;;
     Packer.pack_bool b) Packer.init
    = (Return tt, Packer.mk data)
    /\ (a' <- Unpacker.unpack_uint ;;
        s' <- Unpacker.unpack_string ;;
        h' <- Unpacker.unpack_hyper ;;
        b' <- Unpacker.unpack_bool ;;
        Unpacker.done ;;
        ret (a', s', h', b')) (Unpacker.init data)
       = (Return (a, s, h, b), Unpacker.mk data (len data)).
Proof.
  intros Ha Hs Hh.
  set (W1 := be_encode 4 a). set (W2 := string_wire s).
  set (W3 := be_encode 8 h). set (W4 := be_encode 4 (if b then 1 else 0)).
  exists (((W1 ++ W2) ++ W3) ++ W4). split.
  - unfold bind. rewrite pack_uint_ok by assumption. cbn [Packer.init Packer.buf app].
    destruct (@pack_string_run s (Packer.mk (be_encode 4 a)) Hs) as (Hpack & _).
    cbn [Packer.buf] in Hpack. rewrite Hpack.
    unfold Packer.pack_hyper. rewrite pack_uhyper_bytes, pack_bool_bytes.
    reflexivity.
  - assert (L1 : len W1 = 4) by apply len_be_encode.
    assert (L3 : len W3 = 8) by apply len_be_encode.
    assert (L4 : len W4 = 4) by apply len_be_encode.
    assert (H1 : Unpacker.unpack_uint (Unpacker.mk (((W1 ++ W2) ++ W3) ++ W4) 0)
                 = (Return a, Unpacker.mk (((W1 ++ W2) ++ W3) ++ W4) (len W1))).
    { pose proof (@unpack_uint_at [] (W2 ++ W3 ++ W4) a Ha) as H.
      fold W1 in H. cbn [app] in H. rewrite !app_assoc in H. exact H. }
    assert (H2 : Unpacker.unpack_string
                   (Unpacker.mk (((W1 ++ W2) ++ W3) ++ W4) (len W1))
                 = (Return s, Unpacker.mk (((W1 ++ W2) ++ W3) ++ W4) (len (W1 ++ W2)))).
    { pose proof (@unpack_string_frame s W1 (W3 ++ W4) Hs) as H.
      fold W2 in H. rewrite !app_assoc in H. exact H. }
    assert (H3 : Unpacker.unpack_hyper
                   (Unpacker.mk (((W1 ++ W2) ++ W3) ++ W4) (len (W1 ++ W2)))
                 = (Return h,
                    Unpacker.mk (((W1 ++ W2) ++ W3) ++ W4) (len ((W1 ++ W2) ++ W3)))).
    { pose proof (@unpack_hyper_at (W1 ++ W2) W4 h Hh) as H.
      fold W3 in H. rewrite !app_assoc in H. exact H. }
    assert (H4 : Unpacker.unpack_bool
                   (Unpacker.mk (((W1 ++ W2) ++ W3) ++ W4) (len ((W1 ++ W2) ++ W3)))
                 = (Return b,
                    Unpacker.mk (((W1 ++ W2) ++ W3) ++ W4)
                      (len (((W1 ++ W2) ++ W3) ++ W4)))).
    { pose proof (unpack_bool_at ((W1 ++ W2) ++ W3) [] b) as H.
      fold W4 in H. rewrite !app_nil_r in H. exact H. }
    unfold Unpacker.init, bind. rewrite H1, H2, H3, H4.
    unfold Unpacker.done, bind, get, ret. cbn [Unpacker.pos Unpacker.buf].
    now rewrite Z.ltb_irrefl.
Qed.

Lemma record_roundtrip_witness :
  0 <= 7 < 2 ^ 32 /\ len [x68; x69] < 2 ^ 32 /\ - 2 ^ 63 <= -1 < 2 ^ 63
  /\ exists data,
       (Packer.pack_uint 7 ;; Packer.pack_string [x68; x69] ;; Packer.pack_hyper (-1) ;;
        Packer.pack_bool true) Packer.init
       = (Return tt, Packer.mk data)
       /\ (a' <- Unpacker.unpack_uint ;;
           s' <- Unpacker.unpack_string ;;
           h' <- Unpacker.unpack_hyper ;;
           b' <- Unpacker.unpack_bool ;;
           Unpacker.done ;;
           ret (a', s', h', b')) (Unpacker.init data)
          = (Return (7, [x68; x69], -1, true), Unpacker.mk data (len data)).
Proof.
  assert (Ha : 0 <= 7 < 2 ^ 32) by lia.
  assert (Hs : len [x68; x69] < 2 ^ 32) by (vm_compute; reflexivity).
  assert (Hh : - 2 ^ 63 <= -1 < 2 ^ 63) by lia.
  split; [exact Ha | split; [exact Hs | split; [exact Hh|]]].
  exact (@record_roundtrip 7 [x68; x69] (-1) true Ha Hs Hh).
Defined.
